(** * farewall-xata-lite: the migration pipeline of [main.go]

    A shallow embedding of the three phases of [migrate]
    ([introspectSchema], [createSchema], [copyData]) together with the
    helpers [joinStrings], [contains] and the [ProgressBarRows] cursor
    wrapper.  Go strings are byte strings, modelled by [string]; Go [int]
    values that take part in comparisons are modelled by [Z]; a [*string]
    is an [option string]; an [error] is its message.

    The two [*pgx.Conn] values are external: every call made on them is
    answered by an environment [Env] and recorded, in program order, in
    the list of [Event]s the function returns next to its result.

    Left out, because they touch neither connection nor any result: the
    [context.Context] argument, the console output ([fmt.Print*] and the
    drawing of the progress bar, [bar.Finish]) and [rows.Close]. *)

From Stdlib Require Import String Ascii List ZArith Bool Lia.
Import ListNotations.

Local Open Scope list_scope.
Local Open Scope string_scope.

(** ** Strings *)

(** The one-character string holding a double quote, the delimiter that
    the format strings [`"%s"`] put around identifiers. *)
Definition dquote : string := String (ascii_of_nat 34) EmptyString.

(** [strings.HasPrefix(s, prefix)]. *)
Definition HasPrefix (s pre : string) : bool := String.prefix pre s.

(** [contains(s, substr)], that is [strings.Contains]: [substr] occurs
    in [s] at some offset. *)
Fixpoint contains (s substr : string) : bool :=
  if String.prefix substr s then true
  else match s with
       | EmptyString => false
       | String _ s' => contains s' substr
       end.

(** [joinStrings(strs, sep)]: the loop starts from [strs[0]] and appends
    [sep + strs[i]] for every later index. *)
Definition joinStrings (strs : list string) (sep : string) : string :=
  match strs with
  | [] => EmptyString
  | s0 :: rest => fold_left (fun res s => res ++ sep ++ s) rest s0
  end.

(** ** Data model *)

Module Column.
Record t := mk {
  Name : string;
  DataType : string;
  IsNullable : string;
  Default : option string
}.
End Column.
Abbreviation Column := Column.t.

Module Table.
Record t := mk {
  Name : string;
  Columns : list Column;
  PrimaryKey : list string
}.
End Table.
Abbreviation Table := Table.t.

(** ** Sanitizer (the body of the column loop of [introspectSchema]) *)

(** The nullability flag derived from the scanned [attnotnull]. *)
Definition nullableFlag (notNull : bool) : string :=
  if notNull then "NO" else "YES".

(** Rule 1: "Remove defaults that refer to xata_private schema". *)
Definition stripPrivateDefault (c : Column) : Column :=
  match Column.Default c with
  | Some d =>
      if contains d "xata_private" || contains d "::xata_"
      then Column.mk (Column.Name c) (Column.DataType c) (Column.IsNullable c) None
      else c
  | None => c
  end.

(** The two type tests of the sequence rule. *)
Definition isIntegerType (ty : string) : bool :=
  HasPrefix ty "integer" || (ty =? "int4").

Definition isBigintType (ty : string) : bool :=
  HasPrefix ty "bigint" || (ty =? "int8").

(** Rule "Handle Sequences (nextval)". *)
Definition rewriteSequence (c : Column) : Column :=
  match Column.Default c with
  | Some d =>
      if contains d "nextval(" then
        if isIntegerType (Column.DataType c)
        then Column.mk (Column.Name c) "SERIAL" (Column.IsNullable c) None
        else if isBigintType (Column.DataType c)
        then Column.mk (Column.Name c) "BIGSERIAL" (Column.IsNullable c) None
        else c
      else c
  | None => c
  end.

(** The two rules in the order of the source. *)
Definition sanitize (c : Column) : Column :=
  rewriteSequence (stripPrivateDefault c).

(** [sub] occurs in [s]. *)
Definition occurs (sub s : string) : Prop := exists a b, s = a ++ sub ++ b.

(** The condition of rule 1 on a default expression [d]. *)
Definition isPrivateDefault (d : string) : bool :=
  contains d "xata_private" || contains d "::xata_".

(** ** Errors, values and the call log *)

Local Open Scope list_scope.

(** A Go [error], represented by its message. *)
Definition error := string.

Inductive result (A : Type) : Type :=
| Ok (a : A)
| Fail (e : error).
Arguments Ok {A} a.
Arguments Fail {A} e.

(** [fmt.Errorf(prefix + "%w", err)]: the message of the wrapped error
    follows the prefix. *)
Definition Errorf (prefix : string) (err : error) : error := (prefix ++ err)%string.

(** A value of a result row as the driver hands it over. *)
Inductive Value :=
| VNull
| VBool (b : bool)
| VInt (z : Z)
| VText (s : string)
| VBytes (raw : string).

Definition Row := list Value.

(** The two connections opened by [main]. *)
Inductive Conn := Source | Dest.

Definition Conn_eqb (a b : Conn) : bool :=
  match a, b with
  | Source, Source | Dest, Dest => true
  | _, _ => false
  end.

(** Every call made on a connection, in program order.  [EvExec] and
    [EvCopyFrom] carry the error the destination answered with (if any);
    [EvCopyFrom] also carries the rows that had been handed to the bulk
    loader when the call returned.  A bulk load is one [COPY] statement:
    the rows it carries reach the table only when it ends without
    error. *)
Inductive Event :=
| EvQuery (c : Conn) (sql : string) (args : list string)
| EvQueryRow (c : Conn) (sql : string)
| EvExec (c : Conn) (sql : string) (err : option error)
| EvCopyFrom (c : Conn) (tableName columnNames : list string)
    (rows : list Row) (err : option error).

(** The environment: what the two servers answer.
    - [envQuery]: the rows a query delivers and the read error that ends
      the stream early (if any), or the error of the query itself;
    - [envQueryRow]: the single row of [QueryRow], or its error;
    - [envExec]: the error of a statement, if it fails;
    - [envCopyRow]: the verdict of the bulk loader on one more row, given
      the target, the column list and the rows accepted so far;
    - [envCopyEnd]: its verdict when the stream ends;
    - [envCopyFail]: the error the destination answers with when the
      bulk load is aborted because the row source reported a read error
      (the driver sends the read error along with the abort);
    - [envScanErr]: the error [Scan] reports for a row that does not fit
      the destination variables. *)
Record Env := mkEnv {
  envQuery : Conn -> string -> list string -> result (list Row * option error);
  envQueryRow : Conn -> string -> result Row;
  envExec : Conn -> string -> option error;
  envCopyRow : Conn -> list string -> list string -> list Row -> Row -> option error;
  envCopyEnd : Conn -> list string -> list string -> list Row -> option error;
  envCopyFail : Conn -> list string -> list string -> list Row -> error -> error;
  envScanErr : Row -> error
}.

(** A computation: the calls it made and its result.  After an error
    nothing further runs, and the calls made so far stay in the log. *)
Definition Run (A : Type) : Type := list Event * result A.

Definition ret {A} (a : A) : Run A := ([], Ok a).

Definition bind {A B} (m : Run A) (k : A -> Run B) : Run B :=
  match m with
  | (evs, Ok a) => let (evs', r) := k a in (evs ++ evs', r)
  | (evs, Fail e) => (evs, Fail e)
  end.

(** [if err != nil { return fmt.Errorf(prefix + "%w", err) }]. *)
Definition wrapErr {A} (prefix : string) (m : Run A) : Run A :=
  match m with
  | (evs, Ok a) => (evs, Ok a)
  | (evs, Fail e) => (evs, Fail (Errorf prefix e))
  end.

(** A step that makes no call. *)
Definition liftResult {A} (r : result A) : Run A := ([], r).

Declare Scope run_scope.
Delimit Scope run_scope with run.
Notation "x <- m ;; k" := (bind m (fun x => k))
  (at level 61, m at next level, right associativity) : run_scope.
Notation "m ;;; k" := (bind m (fun _ => k))
  (at level 61, right associativity) : run_scope.

(** ** Row cursors *)

(** The capabilities of [pgx.Rows] that the program and [CopyFrom] use. *)
Class pgxRows (R : Type) := {
  Next : R -> bool * R;
  Values : R -> Row;
  Err : R -> option error
}.

(** The cursor a query returns: the rows still to come, the current row,
    the read error that will end the stream, and what [Err] reports. *)
Record baseRows := mkBaseRows {
  pending : list Row;
  current : Row;
  failure : option error;
  reported : option error
}.

Definition baseRows_Next (r : baseRows) : bool * baseRows :=
  match pending r with
  | row :: rest => (true, mkBaseRows rest row (failure r) (reported r))
  | [] => (false, mkBaseRows [] (current r) (failure r) (failure r))
  end.

#[export] Instance baseRows_pgxRows : pgxRows baseRows := {
  Next := baseRows_Next;
  Values := current;
  Err := reported
}.

(** ** Progress bar and [ProgressBarRows] *)

(** The progress sink: its maximum and the units it has been notified
    of so far. *)
Record ProgressBar := mkBar {
  barMax : Z;
  barAdded : Z
}.

(** [progressbar.Default(max, description)]. *)
Definition progressbar_Default (max : Z) (description : string) : ProgressBar :=
  mkBar max 0.

(** [bar.Add(n)]: a notification of [n] units. *)
Definition Bar_Add (n : Z) (b : ProgressBar) : ProgressBar :=
  mkBar (barMax b) (barAdded b + n).

Module ProgressBarRows.
Record t (R : Type) := mk {
  Rows : R;
  Bar : ProgressBar
}.
Arguments mk {R} Rows Bar.
Arguments Rows {R} _.
Arguments Bar {R} _.

(** [func (r *ProgressBarRows) Next() bool]. *)
Definition Next {R} `{pgxRows R} (r : t R) : bool * t R :=
  let (more, inner) := Next (Rows r) in
  if more then (true, mk inner (Bar_Add 1 (Bar r)))
  else (false, mk inner (Bar r)).
End ProgressBarRows.

(** The methods promoted from the embedded [pgx.Rows] go to the inner
    cursor; only [Next] is overridden. *)
#[export] Instance ProgressBarRows_pgxRows {R} `{pgxRows R} :
    pgxRows (ProgressBarRows.t R) := {
  Next := ProgressBarRows.Next;
  Values := fun r => Values (ProgressBarRows.Rows r);
  Err := fun r => Err (ProgressBarRows.Rows r)
}.

(** [n] successive calls of [Next]: the answers, oldest first, and the
    cursor afterwards. *)
Fixpoint advance {R} `{pgxRows R} (n : nat) (r : R) : list bool * R :=
  match n with
  | O => ([], r)
  | S n' =>
      let (more, r') := Next r in
      let (answers, r'') := advance n' r' in
      (more :: answers, r'')
  end.

(** The number of calls among [answers] that advanced to a row. *)
Definition rowsAdvanced (answers : list bool) : Z :=
  Z.of_nat (List.length (filter (fun more => more) answers)).

(** ** Calls on a connection *)

Section Calls.
Variable env : Env.

(** [conn.Query(ctx, sql, args...)]. *)
Definition Query (conn : Conn) (sql : string) (args : list string) : Run baseRows :=
  ([EvQuery conn sql args],
   match envQuery env conn sql args with
   | Ok (rows, fl) => Ok (mkBaseRows rows [] fl None)
   | Fail e => Fail e
   end).

(** [Scan] of a one-column row into an [int]. *)
Definition scanInt (row : Row) : result Z :=
  match row with
  | [VInt z] => Ok z
  | _ => Fail (envScanErr env row)
  end.

(** [conn.QueryRow(ctx, sql).Scan(&count)]. *)
Definition QueryRowInt (conn : Conn) (sql : string) : Run Z :=
  ([EvQueryRow conn sql],
   match envQueryRow env conn sql with
   | Ok row => scanInt row
   | Fail e => Fail e
   end).

(** [conn.Exec(ctx, sql)]. *)
Definition Exec (conn : Conn) (sql : string) : Run unit :=
  let r := envExec env conn sql in
  ([EvExec conn sql r],
   match r with
   | None => Ok tt
   | Some e => Fail e
   end).

(** The error of the unreachable case of [copyLoop]. *)
Definition copyBoundExceeded : error := "copy: more rows than the cursor holds".

(** The pull loop of [conn.CopyFrom]: ask the source for a row with
    [Next]; hand [Values] to the bulk loader; stop at the first
    rejection, at a read error, or at the end of the stream.  On a read
    error of the source the load is aborted and the error returned is
    the one the destination answers the abort with.  [fuel]
    bounds the number of rows pulled; [CopyFrom] passes the number of
    rows the cursor holds, which is never exceeded
    (lemma [copyLoop_pushAll]). *)
Fixpoint copyLoop {R} `{pgxRows R} (fuel : nat) (conn : Conn)
    (tableName columnNames : list string) (src : R) (pushed : list Row)
    : R * list Row * option error :=
  let (more, src') := Next src in
  if more then
    let row := Values src' in
    match envCopyRow env conn tableName columnNames pushed row with
    | Some e => (src', pushed, Some e)
    | None =>
        match fuel with
        | S fuel' => copyLoop fuel' conn tableName columnNames src' (pushed ++ [row])
        | O => (src', pushed ++ [row], Some copyBoundExceeded)
        end
    end
  else
    match Err src' with
    | Some e => (src', pushed, Some (envCopyFail env conn tableName columnNames pushed e))
    | None => (src', pushed, envCopyEnd env conn tableName columnNames pushed)
    end.

(** [conn.CopyFrom(ctx, tableName, columnNames, rowSrc)] on the wrapped
    cursor of a query; it returns the number of rows copied. *)
Definition CopyFrom (conn : Conn) (tableName columnNames : list string)
    (rowSrc : ProgressBarRows.t baseRows) : Run Z :=
  let '(_, pushed, err) :=
    copyLoop (length (pending (ProgressBarRows.Rows rowSrc)))
             conn tableName columnNames rowSrc [] in
  ([EvCopyFrom conn tableName columnNames pushed err],
   match err with
   | None => Ok (Z.of_nat (length pushed))
   | Some e => Fail e
   end).

End Calls.

(** ** SQL text *)

Local Open Scope string_scope.

(** The three catalog queries of [introspectSchema], verbatim. *)
Definition listTablesSQL : string := "
		SELECT tablename 
		FROM pg_catalog.pg_tables 
		WHERE schemaname = 'public' 
	".

Definition listColumnsSQL : string := "
			SELECT 
				a.attname, 
				format_type(a.atttypid, a.atttypmod), 
				a.attnotnull, 
				pg_get_expr(d.adbin, d.adrelid)
			FROM pg_attribute a
			JOIN pg_class c ON a.attrelid = c.oid
			JOIN pg_namespace n ON c.relnamespace = n.oid
			LEFT JOIN pg_attrdef d ON a.attrelid = d.adrelid AND a.attnum = d.adnum
			WHERE n.nspname = 'public' 
			  AND c.relname = $1
			  AND a.attnum > 0 
			  AND NOT a.attisdropped
			ORDER BY a.attnum
		".

Definition listPrimaryKeySQL : string := "
			SELECT kcu.column_name
			FROM information_schema.table_constraints tc
			JOIN information_schema.key_column_usage kcu
			  ON tc.constraint_name = kcu.constraint_name
			  AND tc.table_schema = kcu.table_schema
			WHERE tc.constraint_type = 'PRIMARY KEY'
			  AND tc.table_schema = 'public'
			  AND tc.table_name = $1
			ORDER BY kcu.ordinal_position
		".

(** [fmt.Sprintf(`"%s"`, name)]. *)
Definition quoteIdent (name : string) : string := dquote ++ name ++ dquote.

(** [fmt.Sprintf(`DROP TABLE IF EXISTS "%s" CASCADE`, t.Name)]. *)
Definition dropTableSQL (name : string) : string :=
  "DROP TABLE IF EXISTS " ++ dquote ++ name ++ dquote ++ " CASCADE".

(** The column loop of [createSchema]: [n] is [len(t.Columns)], [i] the
    index of the head of [cols], [sql] the text built so far. *)
Fixpoint appendColumns (n i : Z) (cols : list Column) (sql : string) : string :=
  match cols with
  | [] => sql
  | c :: rest =>
      let sql := sql ++ (dquote ++ Column.Name c ++ dquote ++ " " ++ Column.DataType c) in
      let sql := if Column.IsNullable c =? "NO" then sql ++ " NOT NULL" else sql in
      let sql := match Column.Default c with
                 | Some d => sql ++ (" DEFAULT " ++ d)
                 | None => sql
                 end in
      let sql := if (i <? n - 1)%Z then sql ++ ", " else sql in
      appendColumns n (i + 1)%Z rest sql
  end.

(** The primary-key loop of [createSchema]. *)
Fixpoint appendKeyColumns (n i : Z) (pks : list string) (sql : string) : string :=
  match pks with
  | [] => sql
  | pk :: rest =>
      let sql := sql ++ (dquote ++ pk ++ dquote) in
      let sql := if (i <? n - 1)%Z then sql ++ ", " else sql in
      appendKeyColumns n (i + 1)%Z rest sql
  end.

(** "Build Create SQL". *)
Definition createTableSQL (t : Table) : string :=
  let sql := "CREATE TABLE " ++ dquote ++ Table.Name t ++ dquote ++ " (" in
  let sql := appendColumns (Z.of_nat (List.length (Table.Columns t))) 0
               (Table.Columns t) sql in
  let sql :=
    if (Z.of_nat (List.length (Table.PrimaryKey t)) >? 0)%Z then
      let sql := sql ++ ", PRIMARY KEY (" in
      let sql := appendKeyColumns (Z.of_nat (List.length (Table.PrimaryKey t))) 0
                   (Table.PrimaryKey t) sql in
      sql ++ ")"
    else sql in
  sql ++ ")".

(** [fmt.Sprintf] of the row-count query [SELECT count( * ) FROM "%s"]
    (written in the source without the blanks around the star) with
    [t.Name] for [%s].  The star is appended as a string of its own so
    that the text of this file holds no comment delimiter. *)
Definition countSQL (name : string) : string :=
  "SELECT count(" ++ "*" ++ ") FROM " ++ dquote ++ name ++ dquote.

(** [s[i] = x] on a slice.  Go panics on an index out of range; this
    function would return the list as it is, but the loop below only
    passes indices below the length (lemma [fillColumnNames_map]). *)
Fixpoint setAt {A} (i : nat) (x : A) (l : list A) : list A :=
  match l, i with
  | [], _ => []
  | _ :: tl, O => x :: tl
  | hd :: tl, S i' => hd :: setAt i' x tl
  end.

(** The loop of [copyData] that fills [colNames] and [escapedColNames]
    by index. *)
Fixpoint fillColumnNames (i : nat) (cols : list Column)
    (colNames escapedColNames : list string) : list string * list string :=
  match cols with
  | [] => (colNames, escapedColNames)
  | c :: rest =>
      fillColumnNames (S i) rest
        (setAt i (Column.Name c) colNames)
        (setAt i (dquote ++ Column.Name c ++ dquote) escapedColNames)
  end.

(** Both slices start as [make([]string, len(t.Columns))]. *)
Definition columnNameLists (t : Table) : list string * list string :=
  let n := List.length (Table.Columns t) in
  fillColumnNames 0 (Table.Columns t) (repeat EmptyString n) (repeat EmptyString n).

(** [fmt.Sprintf(`SELECT %s FROM "%s"`, joinStrings(escapedColNames, ", "), t.Name)]. *)
Definition selectSQL (t : Table) : string :=
  "SELECT " ++ joinStrings (snd (columnNameLists t)) ", "
    ++ " FROM " ++ dquote ++ Table.Name t ++ dquote.

(** ** The three phases *)

Local Open Scope list_scope.
Local Open Scope run_scope.

Section Pipeline.
Variable env : Env.

(** [rows.Scan(&t.Name)]. *)
Definition scanTableName (row : Row) : result string :=
  match row with
  | [VText name] => Ok name
  | _ => Fail (envScanErr env row)
  end.

(** The first loop of [introspectSchema]: one [Table] per row, appended
    in the order the catalog delivers them. *)
Fixpoint scanTables (rows : list Row) (tables : list Table) : result (list Table) :=
  match rows with
  | [] => Ok tables
  | row :: rest =>
      match scanTableName row with
      | Ok name => scanTables rest (tables ++ [Table.mk name [] []])
      | Fail e => Fail e
      end
  end.

(** [cRows.Scan(&c.Name, &c.DataType, &notNull, &c.Default)] and the
    assignment of [c.IsNullable]: the column as the catalog reports it. *)
Definition scanColumn (row : Row) : result Column :=
  match row with
  | [VText name; VText ty; VBool notNull; VNull] =>
      Ok (Column.mk name ty (nullableFlag notNull) None)
  | [VText name; VText ty; VBool notNull; VText d] =>
      Ok (Column.mk name ty (nullableFlag notNull) (Some d))
  | _ => Fail (envScanErr env row)
  end.

(** The column loop: scan, sanitize, append to [t.Columns]. *)
Fixpoint scanColumns (rows : list Row) (cols : list Column) : result (list Column) :=
  match rows with
  | [] => Ok cols
  | row :: rest =>
      match scanColumn row with
      | Ok c => scanColumns rest (cols ++ [sanitize c])
      | Fail e => Fail e
      end
  end.

(** [pkRows.Scan(&pkCol)] and the append to [t.PrimaryKey]. *)
Fixpoint scanPrimaryKey (rows : list Row) (pk : list string) : result (list string) :=
  match rows with
  | [] => Ok pk
  | row :: rest =>
      match row with
      | [VText pkCol] => scanPrimaryKey rest (pk ++ [pkCol])
      | _ => Fail (envScanErr env row)
      end
  end.

(** The body of the second loop of [introspectSchema] for one table. *)
Definition introspectTable (conn : Conn) (t : Table) : Run Table :=
  cRows <- wrapErr ("failed to get columns for table " ++ Table.Name t ++ ": ")
             (Query env conn listColumnsSQL [Table.Name t]) ;;
  cols <- liftResult (scanColumns (pending cRows) (Table.Columns t)) ;;
  pkRows <- wrapErr ("failed to get PK for table " ++ Table.Name t ++ ": ")
              (Query env conn listPrimaryKeySQL [Table.Name t]) ;;
  pk <- liftResult (scanPrimaryKey (pending pkRows) (Table.PrimaryKey t)) ;;
  ret (Table.mk (Table.Name t) cols pk).

Fixpoint introspectTables (conn : Conn) (tables : list Table) : Run (list Table) :=
  match tables with
  | [] => ret []
  | t :: rest =>
      t' <- introspectTable conn t ;;
      rest' <- introspectTables conn rest ;;
      ret (t' :: rest')
  end.

Definition introspectSchema (conn : Conn) : Run (list Table) :=
  rows <- wrapErr "failed to list tables: " (Query env conn listTablesSQL []) ;;
  tables <- liftResult (scanTables (pending rows) []) ;;
  introspectTables conn tables.

(** The body of the loop of [createSchema]. *)
Definition createTable (conn : Conn) (t : Table) : Run unit :=
  wrapErr ("failed to drop table " ++ Table.Name t ++ ": ")
    (Exec env conn (dropTableSQL (Table.Name t))) ;;;
  wrapErr ("failed to create table " ++ Table.Name t ++ ": ")
    (Exec env conn (createTableSQL t)).

Fixpoint createSchema (conn : Conn) (tables : list Table) : Run unit :=
  match tables with
  | [] => ret tt
  | t :: rest => createTable conn t ;;; createSchema conn rest
  end.

(** The body of the loop of [copyData]. *)
Definition copyTable (source dest : Conn) (t : Table) : Run unit :=
  count <- wrapErr ("failed to get count for table " ++ Table.Name t ++ ": ")
             (QueryRowInt env source (countSQL (Table.Name t))) ;;
  if (count =? 0)%Z then ret tt
  else
    let bar := progressbar_Default count "  Copying" in
    let colNames := fst (columnNameLists t) in
    rows <- wrapErr ("failed to query rows from " ++ Table.Name t ++ ": ")
              (Query env source (selectSQL t) []) ;;
    let pbRows := ProgressBarRows.mk rows bar in
    wrapErr ("failed to copy data for table " ++ Table.Name t ++ ": ")
      (CopyFrom env dest [Table.Name t] colNames pbRows) ;;;
    ret tt.

Fixpoint copyData (source dest : Conn) (tables : list Table) : Run unit :=
  match tables with
  | [] => ret tt
  | t :: rest => copyTable source dest t ;;; copyData source dest rest
  end.

Definition migrate (source dest : Conn) : Run unit :=
  tables <- wrapErr "failed to introspect schema: " (introspectSchema source) ;;
  wrapErr "failed to create schema: " (createSchema dest tables) ;;;
  wrapErr "failed to copy data: " (copyData source dest tables).

End Pipeline.

(** ** What the destination holds after a log *)

(** Whether [tableName] is the identifier [pgx.Identifier{name}]. *)
Definition isIdentifier (name : string) (tableName : list string) : bool :=
  match tableName with
  | [n] => (n =? name)%string
  | _ => false
  end.

(** Whether [sql] is the drop statement of one of [names]. *)
Definition dropsOneOf (names : list string) (sql : string) : bool :=
  existsb (fun n => (sql =? dropTableSQL n)%string) names.

(** The rows stored in the table [name] on [conn] after the calls [evs],
    starting from [rows].  [parents] are the tables it descends from as
    it stands (as an inheritance child or a partition, directly or not);
    a table on its own has none.
    - A drop statement that succeeds removes the table it names and,
      since it carries [CASCADE], every table that descends from it: the
      table is emptied by a drop of [name] or of one of [parents].  Once
      removed it can only come back through the create statement of the
      run, which makes a table of its own, without parents.
    - A bulk load is one [COPY] statement: when it ends without error
      its rows are added to the table it names; when it fails, none of
      the rows handed over stays.
    - No other call of the program changes rows. *)
Fixpoint tableRows (conn : Conn) (name : string) (parents : list string)
    (evs : list Event) (rows : list Row) : list Row :=
  match evs with
  | [] => rows
  | EvExec c sql None :: rest =>
      if Conn_eqb c conn && dropsOneOf (name :: parents) sql
      then tableRows conn name [] rest []
      else tableRows conn name parents rest rows
  | EvCopyFrom c tableName _ pushed None :: rest =>
      if Conn_eqb c conn && isIdentifier name tableName
      then tableRows conn name parents rest (rows ++ pushed)
      else tableRows conn name parents rest rows
  | _ :: rest => tableRows conn name parents rest rows
  end.

(** Whether the table of the snapshot entry [t] stands on [conn] after
    the calls [evs] with the structure of [createTableSQL t]: its create
    statement succeeded and its drop statement has not succeeded since.
    The create statement makes a table without parents, so the cascade
    of a drop of another table does not reach it. *)
Fixpoint tableCreated (conn : Conn) (t : Table) (evs : list Event)
    (created : bool) : bool :=
  match evs with
  | [] => created
  | EvExec c sql None :: rest =>
      if Conn_eqb c conn then
        if (sql =? dropTableSQL (Table.Name t))%string
        then tableCreated conn t rest false
        else if (sql =? createTableSQL t)%string
        then tableCreated conn t rest true
        else tableCreated conn t rest created
      else tableCreated conn t rest created
  | _ :: rest => tableCreated conn t rest created
  end.

(** Calls that write to [conn]: statements and bulk loads. *)
Definition writesTo (conn : Conn) (ev : Event) : bool :=
  match ev with
  | EvExec c _ _ => Conn_eqb c conn
  | EvCopyFrom c _ _ _ _ => Conn_eqb c conn
  | _ => false
  end.

(** Cursors opened on [conn]. *)
Definition opensCursor (conn : Conn) (ev : Event) : bool :=
  match ev with
  | EvQuery c _ _ => Conn_eqb c conn
  | _ => false
  end.

(** The rows the bulk loader accepts from [rows] after [pushed], and the
    error of the first rejection. *)
Fixpoint pushAll (env : Env) (conn : Conn) (tableName columnNames : list string)
    (rows pushed : list Row) : list Row * option error :=
  match rows with
  | [] => (pushed, None)
  | row :: rest =>
      match envCopyRow env conn tableName columnNames pushed row with
      | Some e => (pushed, Some e)
      | None => pushAll env conn tableName columnNames rest (pushed ++ [row])
      end
  end.

(** What a bulk load of the cursor content [rows], ended by the read
    error [fl] (if any), comes to: the rows handed over and the error of
    the call.  The first rejection wins, then the abort after a read
    error, then the verdict at the end of the stream. *)
Definition copyOutcome (env : Env) (conn : Conn) (tableName columnNames : list string)
    (rows : list Row) (fl : option error) : list Row * option error :=
  let (pushed, err) := pushAll env conn tableName columnNames rows [] in
  match err with
  | Some e => (pushed, Some e)
  | None =>
      match fl with
      | Some e => (pushed, Some (envCopyFail env conn tableName columnNames pushed e))
      | None => (pushed, envCopyEnd env conn tableName columnNames pushed)
      end
  end.

(** Calls that only read. *)
Definition isRead (ev : Event) : bool :=
  match ev with
  | EvQuery _ _ _ | EvQueryRow _ _ => true
  | _ => false
  end.

(** Statements executed. *)
Definition isExec (ev : Event) : bool :=
  match ev with
  | EvExec _ _ _ => true
  | _ => false
  end.

(** The calls of a schema phase that succeeds on [tables]. *)
Definition schemaEvents (conn : Conn) (tables : list Table) : list Event :=
  flat_map (fun t => [EvExec conn (dropTableSQL (Table.Name t)) None;
                      EvExec conn (createTableSQL t) None]) tables.

(** ** The create-table statement in the words of the specification *)

Local Open Scope string_scope.

(** A column: its delimited name, its type, [NOT NULL] when it is not
    nullable, [DEFAULT] and the expression when there is one. *)
Definition specColumnClause (c : Column) : string :=
  quoteIdent (Column.Name c) ++ " " ++ Column.DataType c
  ++ (if Column.IsNullable c =? "NO" then " NOT NULL" else EmptyString)
  ++ (match Column.Default c with
      | Some d => " DEFAULT " ++ d
      | None => EmptyString
      end).

(** The primary-key clause: nothing for an empty key, otherwise the
    delimited key columns in their captured order. *)
Definition specPrimaryKeyClause (pk : list string) : string :=
  match pk with
  | [] => EmptyString
  | _ :: _ => ", PRIMARY KEY (" ++ joinStrings (map quoteIdent pk) ", " ++ ")"
  end.

Definition specCreateTable (t : Table) : string :=
  "CREATE TABLE " ++ quoteIdent (Table.Name t) ++ " ("
  ++ joinStrings (map specColumnClause (Table.Columns t)) ", "
  ++ specPrimaryKeyClause (Table.PrimaryKey t) ++ ")".

(** The select statement: the delimited declared columns, in declared
    order. *)
Definition specSelect (t : Table) : string :=
  "SELECT " ++ joinStrings (map (fun c => quoteIdent (Column.Name c)) (Table.Columns t)) ", "
  ++ " FROM " ++ quoteIdent (Table.Name t).

(** ** A sample run *)

(** The source of the sample: [audit] (no rows), [users] (three rows)
    and [events] (two rows). *)
Definition sampleUsers : Table :=
  Table.mk "users"
    [Column.mk "id" "SERIAL" "NO" None;
     Column.mk "name" "text" "NO" None;
     Column.mk "note" "text" "YES" None]
    ["id"].

Definition sampleAudit : Table :=
  Table.mk "audit" [Column.mk "what" "text" "YES" None] [].

Definition sampleEvents : Table :=
  Table.mk "events"
    [Column.mk "at" "bigint" "NO" None;
     Column.mk "user_id" "integer" "NO" None]
    ["at"; "user_id"].

Definition sampleTables : list Table := [sampleAudit; sampleUsers; sampleEvents].

Definition sampleUsersRows : list Row :=
  [[VInt 1; VText "ann"; VNull];
   [VInt 2; VText "bob"; VText "likes tea"];
   [VInt 3; VText "cy"; VNull]].

Definition sampleEventsRows : list Row :=
  [[VInt 1700000000; VInt 1]; [VInt 1700000100; VInt 3]].

Definition sampleColumnRows (table : string) : list Row :=
  if table =? "users" then
    [[VText "id"; VText "integer"; VBool true; VText "nextval('users_id_seq'::regclass)"];
     [VText "name"; VText "text"; VBool true; VNull];
     [VText "note"; VText "text"; VBool false; VText "xata_private.foo()"]]
  else if table =? "audit" then
    [[VText "what"; VText "text"; VBool false; VNull]]
  else if table =? "events" then
    [[VText "at"; VText "bigint"; VBool true; VNull];
     [VText "user_id"; VText "integer"; VBool true; VNull]]
  else [].

Definition samplePrimaryKeyRows (table : string) : list Row :=
  if table =? "users" then [[VText "id"]]
  else if table =? "events" then [[VText "at"]; [VText "user_id"]]
  else [].

Definition sampleQuery (c : Conn) (sql : string) (args : list string)
    : result (list Row * option error) :=
  match c with
  | Dest => Fail "not a source query"
  | Source =>
      if sql =? listTablesSQL then
        Ok ([[VText "audit"]; [VText "users"]; [VText "events"]], None)
      else if sql =? listColumnsSQL then
        match args with
        | [table] => Ok (sampleColumnRows table, None)
        | _ => Fail "bad arguments"
        end
      else if sql =? listPrimaryKeySQL then
        match args with
        | [table] => Ok (samplePrimaryKeyRows table, None)
        | _ => Fail "bad arguments"
        end
      else if sql =? selectSQL sampleUsers then Ok (sampleUsersRows, None)
      else if sql =? selectSQL sampleEvents then Ok (sampleEventsRows, None)
      else if sql =? selectSQL sampleAudit then Ok ([], None)
      else Fail "relation does not exist"
  end.

Definition sampleQueryRow (c : Conn) (sql : string) : result Row :=
  if sql =? countSQL "users" then Ok [VInt 3]
  else if sql =? countSQL "events" then Ok [VInt 2]
  else if sql =? countSQL "audit" then Ok [VInt 0]
  else Fail "relation does not exist".

(** The answer of a PostgreSQL server to a bulk load that the client
    aborts: the error names the reason the client gave. *)
Definition copyFailAnswer (e : error) : error :=
  "ERROR: COPY from stdin failed: " ++ e ++ " (SQLSTATE 57014)".

(** A destination that accepts everything. *)
Definition sampleEnv : Env :=
  mkEnv sampleQuery sampleQueryRow
    (fun _ _ => None) (fun _ _ _ _ _ => None) (fun _ _ _ _ => None)
    (fun _ _ _ _ e => copyFailAnswer e)
    (fun _ => "can't scan into dest").

(** A destination that rejects the third row of [users]. *)
Definition rejectThirdUser (c : Conn) (tableName columnNames : list string)
    (pushed : list Row) (row : Row) : option error :=
  if isIdentifier "users" tableName && (List.length pushed =? 2)%nat
  then Some "duplicate key value violates unique constraint"
  else None.

Definition rejectingEnv : Env :=
  mkEnv sampleQuery sampleQueryRow
    (fun _ _ => None) rejectThirdUser (fun _ _ _ _ => None)
    (fun _ _ _ _ e => copyFailAnswer e)
    (fun _ => "can't scan into dest").

(** A cursor over two rows, and the bar that wraps it. *)
Definition sampleCursor : baseRows :=
  mkBaseRows [[VInt 1]; [VInt 2]] [] None None.

Definition sampleWrapped : ProgressBarRows.t baseRows :=
  ProgressBarRows.mk sampleCursor (progressbar_Default 2 "  Copying").

(** ** The program entry point *)

Local Open Scope string_scope.

(** What the process finds when it starts: the environment variables as
    [os.Getenv] reads them once [godotenv.Load] has run, and for each of
    the two connections the error of [pgx.Connect] on a given URL, if it
    fails. *)
Record Process := mkProcess {
  procGetenv : string -> string;
  procConnect : Conn -> string -> option error
}.

(** What [main] does outside [migrate]: it opens and closes
    connections; the calls of [migrate] lie in between. *)
Inductive MainEvent :=
| MConnect (c : Conn) (url : string)
| MCall (ev : Event)
| MClose (c : Conn).

(** How the process ends: [main] returns, or [log.Fatal]/[log.Fatalf]
    prints the message and exits with status 1. *)
Inductive Exit :=
| ExitSuccess
| ExitFatal (msg : string).

(** [main].  The two [defer ... Close(ctx)] run when [main] returns, the
    last deferred first; [log.Fatalf] leaves through [os.Exit], which
    runs no deferred call. *)
Definition main (p : Process) (env : Env) : list MainEvent * Exit :=
  let sourceURL := procGetenv p "XATA_DATABASE_URL" in
  let destURL := procGetenv p "DATABASE_URL" in
  if sourceURL =? EmptyString then ([], ExitFatal "XATA_DATABASE_URL is not set")
  else if destURL =? EmptyString then ([], ExitFatal "DATABASE_URL is not set")
  else
    match procConnect p Source sourceURL with
    | Some err =>
        ([MConnect Source sourceURL],
         ExitFatal ("Unable to connect to source database: " ++ err))
    | None =>
        match procConnect p Dest destURL with
        | Some err =>
            ([MConnect Source sourceURL; MConnect Dest destURL],
             ExitFatal ("Unable to connect to destination database: " ++ err))
        | None =>
            match migrate env Source Dest with
            | (evs, Fail err) =>
                (([MConnect Source sourceURL; MConnect Dest destURL]
                  ++ map MCall evs)%list,
                 ExitFatal ("Migration failed: " ++ err))
            | (evs, Ok _) =>
                (([MConnect Source sourceURL; MConnect Dest destURL]
                  ++ map MCall evs ++ [MClose Dest; MClose Source])%list,
                 ExitSuccess)
            end
        end
    end.

Definition isClose (ev : MainEvent) : bool :=
  match ev with
  | MClose _ => true
  | _ => false
  end.

(** ** Further observations on logs *)

Local Open Scope list_scope.

(** The environment [env] with every read error of a query stream
    removed: the same rows, delivered to the end. *)
Definition withoutReadErrors (env : Env) : Env :=
  mkEnv
    (fun c sql args =>
       match envQuery env c sql args with
       | Ok (rows, _) => Ok (rows, None)
       | Fail e => Fail e
       end)
    (envQueryRow env) (envExec env) (envCopyRow env) (envCopyEnd env)
    (envCopyFail env) (envScanErr env).

(** The queries of an introspection over the tables [names]: the list
    of tables, then for each table its columns and its key. *)
Definition catalogQueries (conn : Conn) (names : list string) : list Event :=
  EvQuery conn listTablesSQL []
  :: flat_map (fun n => [EvQuery conn listColumnsSQL [n];
                         EvQuery conn listPrimaryKeySQL [n]]) names.

(** Reads go to the source, writes to the destination. *)
Definition respectsRoles (ev : Event) : bool :=
  match ev with
  | EvQuery c _ _ | EvQueryRow c _ => Conn_eqb c Source
  | EvExec c _ _ | EvCopyFrom c _ _ _ _ => Conn_eqb c Dest
  end.

(** [ev] is one of the three calls [copyData] makes for the table [t]. *)
Definition copyCallOf (t : Table) (ev : Event) : Prop :=
  ev = EvQueryRow Source (countSQL (Table.Name t))
  \/ ev = EvQuery Source (selectSQL t) []
  \/ exists pushed err,
       ev = EvCopyFrom Dest [Table.Name t] (map Column.Name (Table.Columns t))
              pushed err.

(** ** More sample runs *)

Local Open Scope string_scope.

(** A destination that refuses to create [users]. *)
Definition createFailEnv : Env :=
  mkEnv sampleQuery sampleQueryRow
    (fun _ sql => if sql =? createTableSQL sampleUsers
                  then Some "permission denied for schema public" else None)
    (fun _ _ _ _ _ => None) (fun _ _ _ _ => None)
    (fun _ _ _ _ e => copyFailAnswer e)
    (fun _ => "can't scan into dest").

(** A source whose stream of [users] breaks after two rows, and whose
    count of [events] is off by one. *)
Definition brokenStreamEnv : Env :=
  mkEnv
    (fun c sql args =>
       if sql =? selectSQL sampleUsers
       then Ok (firstn 2 sampleUsersRows, Some "unexpected EOF")
       else sampleQuery c sql args)
    (fun c sql =>
       if sql =? countSQL "events" then Ok [VInt 7] else sampleQueryRow c sql)
    (fun _ _ => None) (fun _ _ _ _ _ => None) (fun _ _ _ _ => None)
    (fun _ _ _ _ e => copyFailAnswer e)
    (fun _ => "can't scan into dest").

(** A source whose catalog does not answer for the columns of [users]. *)
Definition catalogFailEnv : Env :=
  mkEnv
    (fun c sql args =>
       if (sql =? listColumnsSQL) && isIdentifier "users" args
       then Fail "statement timeout"
       else sampleQuery c sql args)
    sampleQueryRow
    (fun _ _ => None) (fun _ _ _ _ _ => None) (fun _ _ _ _ => None)
    (fun _ _ _ _ e => copyFailAnswer e)
    (fun _ => "can't scan into dest").

(** A source whose list of tables breaks off before the first row. *)
Definition emptyCatalogEnv : Env :=
  mkEnv
    (fun c sql args =>
       if sql =? listTablesSQL then Ok ([], Some "unexpected EOF")
       else sampleQuery c sql args)
    sampleQueryRow
    (fun _ _ => None) (fun _ _ _ _ _ => None) (fun _ _ _ _ => None)
    (fun _ _ _ _ e => copyFailAnswer e)
    (fun _ => "can't scan into dest").

(** A process with both variables set and both servers reachable. *)
Definition sampleProcess : Process :=
  mkProcess
    (fun key =>
       if key =? "XATA_DATABASE_URL" then "postgres://xata/db"
       else if key =? "DATABASE_URL" then "postgres://local/db"
       else EmptyString)
    (fun _ _ => None).

(** A process without [DATABASE_URL]. *)
Definition unconfiguredProcess : Process :=
  mkProcess
    (fun key => if key =? "XATA_DATABASE_URL" then "postgres://xata/db" else EmptyString)
    (fun _ _ => None).

(** ** The type families in the words of the specification *)

Local Open Scope string_scope.

(** The integer family: the 32-bit integer type under its two names;
    the big-integer family: the 64-bit one. *)
Definition specIntegerFamily (ty : string) : Prop := ty = "integer" \/ ty = "int4".

Definition specBigintFamily (ty : string) : Prop := ty = "bigint" \/ ty = "int8".

(** A column of integer arrays whose default draws from a sequence. *)
Definition sampleArrayColumn : Column :=
  Column.mk "scores" "integer[]" "YES"
    (Some "ARRAY[(nextval('scores_seq'::regclass))::integer]").

(** The sample source when the server cancels the query of the list of
    tables after its first row; the connection stays in use, and [users]
    and [events] are still there and answer their count and select as
    before. *)
Definition truncatedListEnv : Env :=
  mkEnv
    (fun c sql args =>
       if sql =? listTablesSQL
       then Ok ([[VText "audit"]],
                Some "ERROR: canceling statement due to statement timeout (SQLSTATE 57014)")
       else sampleQuery c sql args)
    sampleQueryRow
    (fun _ _ => None) (fun _ _ _ _ _ => None) (fun _ _ _ _ => None)
    (fun _ _ _ _ e => copyFailAnswer e)
    (fun _ => "can't scan into dest").

(** * Properties *)

(** ** Strings *)

Local Open Scope string_scope.

Lemma append_nil_r (s : string) : s ++ EmptyString = s.
Proof. induction s as [|a s IH]; simpl; [reflexivity | now rewrite IH]. Qed.

Lemma append_assoc (a b c : string) : (a ++ b) ++ c = a ++ b ++ c.
Proof. induction a as [|x a IH]; simpl; [reflexivity | now rewrite IH]. Qed.

Lemma length_append (a b : string) :
  String.length (a ++ b) = String.length a + String.length b.
Proof. induction a as [|x a IH]; simpl; [reflexivity | now rewrite IH]. Qed.

Lemma append_inv_head (p a b : string) : p ++ a = p ++ b -> a = b.
Proof.
  induction p as [|x p IH]; simpl; intros H; [exact H|].
  injection H as H. exact (IH H).
Qed.

Lemma append_inv_tail (a b q : string) : a ++ q = b ++ q -> a = b.
Proof.
  revert b; induction a as [|x a IH]; intros [|y b] H; simpl in H.
  - reflexivity.
  - apply (f_equal String.length) in H. simpl in H.
    rewrite length_append in H. lia.
  - apply (f_equal String.length) in H. simpl in H.
    rewrite length_append in H. lia.
  - injection H as -> H. f_equal. exact (IH _ H).
Qed.

Lemma prefix_app (p s : string) : String.prefix p (p ++ s) = true.
Proof.
  induction p as [|a p IH]; simpl.
  - destruct s; reflexivity.
  - destruct (ascii_dec a a); [exact IH | congruence].
Qed.

Lemma prefix_split (p s : string) :
  String.prefix p s = true -> exists r, s = p ++ r.
Proof.
  revert s; induction p as [|a p IH]; intros s H.
  - exists s; reflexivity.
  - destruct s as [|b s]; simpl in H; [discriminate|].
    destruct (ascii_dec a b) as [Hab|Hab]; [subst b|discriminate H].
    destruct (IH _ H) as [r Hr]. exists r; rewrite Hr; reflexivity.
Qed.

(** [HasPrefix] holds exactly of the strings that start with the prefix. *)
Lemma HasPrefix_spec (s pre : string) :
  HasPrefix s pre = true <-> exists r, s = pre ++ r.
Proof.
  unfold HasPrefix. split.
  - apply prefix_split.
  - intros [r ->]. apply prefix_app.
Qed.

(** [contains] decides the occurrence of a substring. *)
Lemma contains_spec (s sub : string) : contains s sub = true <-> occurs sub s.
Proof.
  unfold occurs. split.
  - induction s as [|c s IH]; cbn [contains].
    + destruct (String.prefix sub EmptyString) eqn:E; [|intros H; discriminate H].
      intros _. destruct (prefix_split _ _ E) as [r Hr].
      exists EmptyString, r; exact Hr.
    + destruct (String.prefix sub (String c s)) eqn:E.
      * intros _. destruct (prefix_split _ _ E) as [r Hr].
        exists EmptyString, r; exact Hr.
      * intros H. destruct (IH H) as (a & b & ->).
        exists (String c a), b; reflexivity.
  - intros (a & b & ->). induction a as [|c a IH].
    + change (EmptyString ++ sub ++ b) with (sub ++ b).
      destruct (sub ++ b) eqn:E; cbn [contains];
        rewrite <- E, prefix_app; reflexivity.
    + change (String c a ++ sub ++ b) with (String c (a ++ sub ++ b)).
      cbn [contains]. rewrite IH.
      destruct (String.prefix sub (String c (a ++ sub ++ b))); reflexivity.
Qed.

Lemma isPrivateDefault_spec (d : string) :
  isPrivateDefault d = true <-> occurs "xata_private" d \/ occurs "::xata_" d.
Proof.
  unfold isPrivateDefault. rewrite orb_true_iff, !contains_spec. reflexivity.
Qed.

(** The types the two tests accept. *)
Lemma isIntegerType_spec (ty : string) :
  isIntegerType ty = true <-> (exists r, ty = "integer" ++ r) \/ ty = "int4".
Proof.
  unfold isIntegerType. now rewrite orb_true_iff, HasPrefix_spec, String.eqb_eq.
Qed.

Lemma isBigintType_spec (ty : string) :
  isBigintType ty = true <-> (exists r, ty = "bigint" ++ r) \/ ty = "int8".
Proof.
  unfold isBigintType. now rewrite orb_true_iff, HasPrefix_spec, String.eqb_eq.
Qed.

(** The integer and the big-integer type tests never hold together. *)
Lemma isBigintType_not_integer (ty : string) :
  isBigintType ty = true -> isIntegerType ty = false.
Proof.
  unfold isBigintType. rewrite orb_true_iff. intros [H | H].
  - apply HasPrefix_spec in H. destruct H as [r ->]. reflexivity.
  - apply String.eqb_eq in H. subst ty. reflexivity.
Qed.

(** ** Sanitizer *)

Lemma stripPrivateDefault_private (c : Column) (d : string) :
  Column.Default c = Some d -> isPrivateDefault d = true ->
  stripPrivateDefault c =
    Column.mk (Column.Name c) (Column.DataType c) (Column.IsNullable c) None.
Proof.
  intros Hd Hp. unfold stripPrivateDefault. rewrite Hd.
  unfold isPrivateDefault in Hp. rewrite Hp. reflexivity.
Qed.

Lemma stripPrivateDefault_other (c : Column) :
  (forall d, Column.Default c = Some d -> isPrivateDefault d = false) ->
  stripPrivateDefault c = c.
Proof.
  intros H. unfold stripPrivateDefault.
  destruct (Column.Default c) as [d|] eqn:Hd; [|reflexivity].
  specialize (H d eq_refl). unfold isPrivateDefault in H. rewrite H. reflexivity.
Qed.

Lemma rewriteSequence_no_default (c : Column) :
  Column.Default c = None -> rewriteSequence c = c.
Proof. intros H. unfold rewriteSequence. rewrite H. reflexivity. Qed.

(** C3: a default that mentions the private schema name, or that casts to
    a private type, is absent after rule 1 and after the whole
    sanitizer, and rule 1 changes nothing else of the column; a column
    whose default matches neither pattern (or that has no default) leaves
    rule 1 unchanged. *)
Theorem private_default_discarded (c : Column) :
  (forall d, Column.Default c = Some d ->
     occurs "xata_private" d \/ occurs "::xata_" d ->
     Column.Default (stripPrivateDefault c) = None /\
     Column.Default (sanitize c) = None)
  /\ ((forall d, Column.Default c = Some d ->
         ~ occurs "xata_private" d /\ ~ occurs "::xata_" d) ->
      stripPrivateDefault c = c)
  /\ Column.Name (stripPrivateDefault c) = Column.Name c
  /\ Column.DataType (stripPrivateDefault c) = Column.DataType c
  /\ Column.IsNullable (stripPrivateDefault c) = Column.IsNullable c.
Proof.
  split; [|split].
  - intros d Hd Hp. apply isPrivateDefault_spec in Hp.
    unfold sanitize. rewrite (stripPrivateDefault_private c d Hd Hp).
    split; reflexivity.
  - intros H. apply stripPrivateDefault_other. intros d Hd.
    destruct (isPrivateDefault d) eqn:E; [|reflexivity].
    apply isPrivateDefault_spec in E. destruct (H d Hd) as [H1 H2].
    destruct E; contradiction.
  - unfold stripPrivateDefault.
    destruct (Column.Default c) as [d|]; [|repeat split].
    destruct (contains d "xata_private" || contains d "::xata_"); repeat split.
Qed.

(** The [note] column of the specification's scenario loses its default. *)
Lemma private_default_discarded_witness :
  Column.Default
    (sanitize (Column.mk "note" "text" "YES" (Some "xata_private.foo()"))) = None.
Proof.
  apply (proj1 (private_default_discarded
                  (Column.mk "note" "text" "YES" (Some "xata_private.foo()")))
               "xata_private.foo()" eq_refl).
  left. exists EmptyString, ".foo()". reflexivity.
Defined.

(** The sequence rule by the two type tests of the source: when the
    default survives rule 1 and contains a sequence call, a type that
    passes the first test becomes [SERIAL], one that passes the second
    [BIGSERIAL], both without default, and a type that passes neither
    leaves the column as it was; a default that rule 1 discards never
    changes the type, whatever it contains. *)
Theorem sequence_default_rewritten (c : Column) (d : string) :
  Column.Default c = Some d ->
  (~ occurs "xata_private" d /\ ~ occurs "::xata_" d ->
   occurs "nextval(" d ->
   (isIntegerType (Column.DataType c) = true ->
      Column.DataType (sanitize c) = "SERIAL" /\
      Column.Default (sanitize c) = None)
   /\ (isBigintType (Column.DataType c) = true ->
      Column.DataType (sanitize c) = "BIGSERIAL" /\
      Column.Default (sanitize c) = None)
   /\ (isIntegerType (Column.DataType c) = false ->
       isBigintType (Column.DataType c) = false ->
       sanitize c = c))
  /\ (occurs "xata_private" d \/ occurs "::xata_" d ->
      Column.DataType (sanitize c) = Column.DataType c /\
      Column.Default (sanitize c) = None).
Proof.
  intros Hd. split.
  - intros [Hn1 Hn2] Hseq.
    assert (Hs : stripPrivateDefault c = c).
    { apply stripPrivateDefault_other. intros d' Hd'.
      rewrite Hd in Hd'. injection Hd' as <-.
      destruct (isPrivateDefault d) eqn:E; [|reflexivity].
      apply isPrivateDefault_spec in E. destruct E; contradiction. }
    apply contains_spec in Hseq.
    unfold sanitize. rewrite Hs. unfold rewriteSequence. rewrite Hd, Hseq.
    split; [|split].
    + intros Hi. rewrite Hi. split; reflexivity.
    + intros Hb. rewrite (isBigintType_not_integer _ Hb), Hb. split; reflexivity.
    + intros Hi Hb. rewrite Hi, Hb. reflexivity.
  - intros Hp. apply isPrivateDefault_spec in Hp.
    unfold sanitize. rewrite (stripPrivateDefault_private c d Hd Hp).
    split; reflexivity.
Qed.

(** The [id] column of the specification's scenario becomes [SERIAL]. *)
Lemma sequence_default_rewritten_example :
  Column.DataType
    (sanitize (Column.mk "id" "integer" "NO"
                 (Some "nextval('users_id_seq'::regclass)"))) = "SERIAL"
  /\ Column.Default
    (sanitize (Column.mk "id" "integer" "NO"
                 (Some "nextval('users_id_seq'::regclass)"))) = None.
Proof.
  assert (Hnot : ~ occurs "xata_private" "nextval('users_id_seq'::regclass)" /\
                 ~ occurs "::xata_" "nextval('users_id_seq'::regclass)").
  { split; intros H; apply contains_spec in H; vm_compute in H; discriminate H. }
  assert (Hseq : occurs "nextval(" "nextval('users_id_seq'::regclass)").
  { exists EmptyString, "'users_id_seq'::regclass)". reflexivity. }
  exact (proj1 (proj1 (sequence_default_rewritten
                         (Column.mk "id" "integer" "NO"
                            (Some "nextval('users_id_seq'::regclass)"))
                         "nextval('users_id_seq'::regclass)" eq_refl)
                      Hnot Hseq) eq_refl).
Defined.

(** C2: the type tests of the sequence rule accept more than the two
    families: the first holds of every type whose name starts with
    [integer] and the second of every name that starts with [bigint],
    so the array type [integer[]] counts as an integer.  The column
    [scores integer[]] whose default draws from a sequence survives
    rule 1 and is of neither family, yet leaves the sanitizer as a
    [SERIAL] column without default. *)
Theorem integer_array_becomes_serial :
  ~ specIntegerFamily (Column.DataType sampleArrayColumn)
  /\ ~ specBigintFamily (Column.DataType sampleArrayColumn)
  /\ (exists d,
        Column.Default sampleArrayColumn = Some d /\
        ~ occurs "xata_private" d /\ ~ occurs "::xata_" d /\ occurs "nextval(" d)
  /\ sanitize sampleArrayColumn = Column.mk "scores" "SERIAL" "YES" None
  /\ sanitize sampleArrayColumn <> sampleArrayColumn
  /\ (forall name suffix nullable d,
        ~ occurs "xata_private" d -> ~ occurs "::xata_" d -> occurs "nextval(" d ->
        sanitize (Column.mk name ("integer" ++ suffix) nullable (Some d)) =
          Column.mk name "SERIAL" nullable None
        /\ sanitize (Column.mk name ("bigint" ++ suffix) nullable (Some d)) =
          Column.mk name "BIGSERIAL" nullable None).
Proof.
  split; [intros [H|H]; discriminate H|].
  split; [intros [H|H]; discriminate H|].
  split.
  { eexists. split; [reflexivity|]. repeat split.
    - intros H. apply contains_spec in H. vm_compute in H. discriminate H.
    - intros H. apply contains_spec in H. vm_compute in H. discriminate H.
    - apply contains_spec. vm_compute. reflexivity. }
  split; [vm_compute; reflexivity|].
  split; [intros H; vm_compute in H; discriminate H|].
  intros name suffix nullable d Hn1 Hn2 Hseq.
  assert (Hp : isPrivateDefault d = false).
  { destruct (isPrivateDefault d) eqn:E; [|reflexivity].
    apply isPrivateDefault_spec in E. destruct E; contradiction. }
  apply contains_spec in Hseq.
  unfold sanitize.
  rewrite !stripPrivateDefault_other
    by (cbn; intros d' Hd'; injection Hd' as <-; exact Hp).
  unfold rewriteSequence. cbn [Column.Default Column.DataType Column.Name Column.IsNullable].
  rewrite Hseq.
  assert (Hi : isIntegerType ("integer" ++ suffix) = true)
    by (apply isIntegerType_spec; left; exists suffix; reflexivity).
  assert (Hb : isBigintType ("bigint" ++ suffix) = true)
    by (apply isBigintType_spec; left; exists suffix; reflexivity).
  rewrite Hi, (isBigintType_not_integer _ Hb), Hb. split; reflexivity.
Qed.

(** C10: the sanitizer keeps the name and the nullability of every
    column, its result has either no default or the default it was given
    (so a column without default comes out unchanged), and the column
    loop stores the sanitized columns in the order of the catalog rows,
    one per row. *)
Theorem sanitize_frame (env : Env) (c : Column) :
  Column.Name (sanitize c) = Column.Name c
  /\ Column.IsNullable (sanitize c) = Column.IsNullable c
  /\ (Column.Default (sanitize c) = None \/
      Column.Default (sanitize c) = Column.Default c)
  /\ (Column.Default c = None -> sanitize c = c)
  /\ (forall rows cols,
        scanColumns env rows [] = Ok cols ->
        exists raws,
          Forall2 (fun row raw => scanColumn env row = Ok raw) rows raws /\
          cols = map sanitize raws).
Proof.
  assert (Hfields : forall x,
    Column.Name (sanitize x) = Column.Name x /\
    Column.IsNullable (sanitize x) = Column.IsNullable x /\
    (Column.Default (sanitize x) = None \/
     Column.Default (sanitize x) = Column.Default x)).
  { intros x. unfold sanitize, rewriteSequence, stripPrivateDefault.
    destruct (Column.Default x) as [d|] eqn:Hd.
    - destruct (contains d "xata_private" || contains d "::xata_"); cbn.
      + auto.
      + rewrite Hd. destruct (contains d "nextval("); [|auto].
        destruct (isIntegerType (Column.DataType x)); [cbn; auto|].
        destruct (isBigintType (Column.DataType x)); cbn; auto.
    - rewrite Hd. auto. }
  destruct (Hfields c) as (Hn & Hnl & Hdef).
  repeat split; try assumption.
  - intros Hd. unfold sanitize.
    rewrite stripPrivateDefault_other by (intros d H; congruence).
    apply rewriteSequence_no_default, Hd.
  - intros rows cols.
    assert (Hgen : forall rs acc out,
      scanColumns env rs acc = Ok out ->
      exists raws,
        Forall2 (fun row raw => scanColumn env row = Ok raw) rs raws /\
        out = (acc ++ map sanitize raws)%list).
    { induction rs as [|row rs IH]; intros acc out H; cbn [scanColumns] in H.
      - injection H as <-. exists []. split; [constructor|].
        now rewrite app_nil_r.
      - destruct (scanColumn env row) as [raw|e] eqn:Hrow; [|discriminate H].
        destruct (IH _ _ H) as (raws & HF & ->).
        exists (raw :: raws). split; [constructor; assumption|].
        now rewrite <- app_assoc. }
    intros H. destruct (Hgen _ _ _ H) as (raws & HF & ->).
    exists raws. split; [exact HF | reflexivity].
Qed.

(** The three catalog rows of [users] give three columns in that order,
    the first and the third sanitized. *)
Lemma sanitize_frame_witness :
  exists raws,
    Forall2 (fun row raw => scanColumn sampleEnv row = Ok raw)
            (sampleColumnRows "users") raws /\
    Table.Columns sampleUsers = map sanitize raws.
Proof.
  apply (proj2 (proj2 (proj2 (proj2
           (sanitize_frame sampleEnv (Column.mk "id" "integer" "NO" None)))))).
  vm_compute. reflexivity.
Defined.

(** ** The statements of [createSchema] *)

Lemma joinStrings_fold (sep : string) (l : list string) (a b : string) :
  fold_left (fun res s => res ++ sep ++ s) l (a ++ b) =
  a ++ fold_left (fun res s => res ++ sep ++ s) l b.
Proof.
  revert b; induction l as [|x l IH]; intros b; cbn [fold_left].
  - reflexivity.
  - rewrite append_assoc. apply IH.
Qed.

Lemma joinStrings_cons (sep x y : string) (l : list string) :
  joinStrings (x :: y :: l) sep = x ++ sep ++ joinStrings (y :: l) sep.
Proof.
  unfold joinStrings. cbn [fold_left].
  now rewrite !joinStrings_fold.
Qed.

(** One round of the column loop appends the clause of the column. *)
Lemma column_clause_step (c : Column) (sql : string) :
  (let sql1 := sql ++ (dquote ++ Column.Name c ++ dquote ++ " " ++ Column.DataType c) in
   let sql2 := if Column.IsNullable c =? "NO" then sql1 ++ " NOT NULL" else sql1 in
   match Column.Default c with
   | Some d => sql2 ++ (" DEFAULT " ++ d)
   | None => sql2
   end) = sql ++ specColumnClause c.
Proof.
  unfold specColumnClause, quoteIdent. cbv zeta.
  destruct (Column.IsNullable c =? "NO"), (Column.Default c) as [d|];
    rewrite ?append_assoc, ?append_nil_r; reflexivity.
Qed.

Lemma appendColumns_join (cols : list Column) (i : Z) (sql : string) :
  appendColumns (i + Z.of_nat (List.length cols)) i cols sql =
  sql ++ joinStrings (map specColumnClause cols) ", ".
Proof.
  revert i sql; induction cols as [|c rest IH]; intros i sql.
  - cbn. now rewrite append_nil_r.
  - cbn [appendColumns]. cbv zeta.
    pose proof (column_clause_step c sql) as Hstep. cbv zeta in Hstep.
    rewrite Hstep. clear Hstep.
    replace (i + Z.of_nat (List.length (c :: rest)))%Z
      with ((i + 1) + Z.of_nat (List.length rest))%Z
      by (cbn [List.length]; lia).
    destruct rest as [|c' rest'].
    + replace (i <? i + 1 + Z.of_nat (List.length (@nil Column)) - 1)%Z with false
        by (symmetry; apply Z.ltb_ge; cbn; lia).
      reflexivity.
    + replace (i <? i + 1 + Z.of_nat (List.length (c' :: rest')) - 1)%Z with true
        by (symmetry; apply Z.ltb_lt; cbn [List.length]; lia).
      rewrite IH. cbn [map]. rewrite joinStrings_cons.
      now rewrite !append_assoc.
Qed.

Lemma appendKeyColumns_join (pks : list string) (i : Z) (sql : string) :
  appendKeyColumns (i + Z.of_nat (List.length pks)) i pks sql =
  sql ++ joinStrings (map quoteIdent pks) ", ".
Proof.
  revert i sql; induction pks as [|pk rest IH]; intros i sql.
  - cbn. now rewrite append_nil_r.
  - cbn [appendKeyColumns]. cbv zeta.
    replace (i + Z.of_nat (List.length (pk :: rest)))%Z
      with ((i + 1) + Z.of_nat (List.length rest))%Z
      by (cbn [List.length]; lia).
    destruct rest as [|pk' rest'].
    + replace (i <? i + 1 + Z.of_nat (List.length (@nil string)) - 1)%Z with false
        by (symmetry; apply Z.ltb_ge; cbn; lia).
      reflexivity.
    + replace (i <? i + 1 + Z.of_nat (List.length (pk' :: rest')) - 1)%Z with true
        by (symmetry; apply Z.ltb_lt; cbn [List.length]; lia).
      rewrite IH. cbn [map]. rewrite joinStrings_cons.
      unfold quoteIdent. now rewrite !append_assoc.
Qed.

(** The text built by the loops is the statement of the specification. *)
Lemma createTableSQL_closed_form (t : Table) : createTableSQL t = specCreateTable t.
Proof.
  unfold createTableSQL, specCreateTable. cbv zeta.
  rewrite (appendColumns_join (Table.Columns t) 0).
  rewrite (appendKeyColumns_join (Table.PrimaryKey t) 0).
  unfold specPrimaryKeyClause, quoteIdent.
  destruct (Table.PrimaryKey t) as [|pk rest].
  - cbn [List.length Z.of_nat Z.gtb Z.compare].
    rewrite ?append_assoc, ?append_nil_r. reflexivity.
  - replace (Z.of_nat (List.length (pk :: rest)) >? 0)%Z with true
      by (symmetry; apply Z.gtb_lt; cbn [List.length]; lia).
    rewrite ?append_assoc. reflexivity.
Qed.

(** ** Computations *)

Local Open Scope list_scope.

Lemma bind_ok_inv {A B} (m : Run A) (k : A -> Run B) (evs : list Event) (b : B) :
  bind m k = (evs, Ok b) ->
  exists e1 a e2, m = (e1, Ok a) /\ k a = (e2, Ok b) /\ evs = e1 ++ e2.
Proof.
  unfold bind. destruct m as [e1 [a|e]]; [|intros H; discriminate H].
  destruct (k a) as [e2 r] eqn:Hk. intros H. injection H as <- ->.
  exists e1, a, e2. auto.
Qed.

(** Opens a successful [bind] in hypothesis [H]: [x] is the value of
    the first step, [Hx] says so, and [H] is left about the rest. *)
Tactic Notation "bind_inv" hyp(H) "as" ident(x) ident(Hx) :=
  let e1 := fresh "evs" in
  let e2 := fresh "evs" in
  apply bind_ok_inv in H; destruct H as (e1 & x & e2 & Hx & H & ->).

Lemma wrapErr_ok_inv {A} (prefix : string) (m : Run A) (evs : list Event) (a : A) :
  wrapErr prefix m = (evs, Ok a) -> m = (evs, Ok a).
Proof.
  unfold wrapErr. destruct m as [e1 [x|e]]; intros H; [exact H | discriminate H].
Qed.

Lemma wrapErr_fst {A} (prefix : string) (m : Run A) : fst (wrapErr prefix m) = fst m.
Proof. destruct m as [e1 [x|e]]; reflexivity. Qed.

(** [createTable] runs the drop statement, then, if that succeeded, the
    create statement; each failure is reported with the table's name. *)
Lemma createTable_run (env : Env) (conn : Conn) (t : Table) :
  createTable env conn t =
    match envExec env conn (dropTableSQL (Table.Name t)) with
    | Some e =>
        ([EvExec conn (dropTableSQL (Table.Name t)) (Some e)],
         Fail (Errorf ("failed to drop table " ++ Table.Name t ++ ": ")%string e))
    | None =>
        ([EvExec conn (dropTableSQL (Table.Name t)) None;
          EvExec conn (createTableSQL t) (envExec env conn (createTableSQL t))],
         match envExec env conn (createTableSQL t) with
         | None => Ok tt
         | Some e => Fail (Errorf ("failed to create table " ++ Table.Name t ++ ": ")%string e)
         end)
    end.
Proof.
  unfold createTable, bind, wrapErr, Exec.
  destruct (envExec env conn (dropTableSQL (Table.Name t))); [reflexivity|].
  destruct (envExec env conn (createTableSQL t)); reflexivity.
Qed.

Lemma nullableFlag_NO (notNull : bool) : (nullableFlag notNull =? "NO")%string = notNull.
Proof. destruct notNull; reflexivity. Qed.

(** ** Introspection *)

Lemma scanTables_spec (env : Env) (rows : list Row) (acc ts : list Table) :
  scanTables env rows acc = Ok ts ->
  exists names, ts = acc ++ map (fun n => Table.mk n [] []) names.
Proof.
  revert acc; induction rows as [|row rows IH]; intros acc H; cbn [scanTables] in H.
  - injection H as <-. exists []. now rewrite app_nil_r.
  - destruct (scanTableName env row) as [name|e]; [|discriminate H].
    destruct (IH _ H) as [names ->]. exists (name :: names).
    now rewrite <- app_assoc.
Qed.

Lemma scanPrimaryKey_spec (env : Env) (rows : list Row) (pk0 pk : list string) :
  scanPrimaryKey env rows pk0 = Ok pk ->
  exists keys, rows = map (fun k => [VText k]) keys /\ pk = pk0 ++ keys.
Proof.
  revert pk0; induction rows as [|row rows IH]; intros pk0 H; cbn [scanPrimaryKey] in H.
  - injection H as <-. exists []. split; [reflexivity | now rewrite app_nil_r].
  - destruct row as [|[| | |k|] [|? ?]]; try discriminate H.
    destruct (IH _ H) as (keys & -> & ->). exists (k :: keys).
    split; [reflexivity | now rewrite <- app_assoc].
Qed.

Lemma Query_ok_inv (env : Env) (conn : Conn) (sql : string) (args : list string)
    (evs : list Event) (r : baseRows) :
  Query env conn sql args = (evs, Ok r) ->
  evs = [EvQuery conn sql args] /\
  envQuery env conn sql args = Ok (pending r, failure r) /\
  current r = [] /\ reported r = None.
Proof.
  unfold Query. intros H. injection H as <- H.
  destruct (envQuery env conn sql args) as [[rows fl]|e]; [|discriminate H].
  injection H as <-. repeat split.
Qed.

(** A successful [introspectTable] asked the two catalog queries for the
    table and stored what the two loops made of their rows. *)
Lemma introspectTable_ok (env : Env) (conn : Conn) (t t' : Table) (evs : list Event) :
  introspectTable env conn t = (evs, Ok t') ->
  exists crows cfl prows pfl,
    envQuery env conn listColumnsSQL [Table.Name t] = Ok (crows, cfl) /\
    scanColumns env crows (Table.Columns t) = Ok (Table.Columns t') /\
    envQuery env conn listPrimaryKeySQL [Table.Name t] = Ok (prows, pfl) /\
    scanPrimaryKey env prows (Table.PrimaryKey t) = Ok (Table.PrimaryKey t') /\
    Table.Name t' = Table.Name t /\
    evs = [EvQuery conn listColumnsSQL [Table.Name t];
           EvQuery conn listPrimaryKeySQL [Table.Name t]].
Proof.
  unfold introspectTable. intros H.
  bind_inv H as cRows H1.
  apply wrapErr_ok_inv, Query_ok_inv in H1. destruct H1 as (-> & Hc & _).
  bind_inv H as cols H2.
  unfold liftResult in H2. injection H2 as <- H2.
  bind_inv H as pkRows H3.
  apply wrapErr_ok_inv, Query_ok_inv in H3. destruct H3 as (-> & Hp & _).
  bind_inv H as pk H4.
  unfold liftResult in H4. injection H4 as <- H4.
  unfold ret in H. injection H as <- <-.
  exists (pending cRows), (failure cRows), (pending pkRows), (failure pkRows).
  cbn. auto 10.
Qed.

Lemma introspectTables_ok (env : Env) (conn : Conn) (ts ts' : list Table)
    (evs : list Event) :
  introspectTables env conn ts = (evs, Ok ts') ->
  Forall2 (fun t t' => exists e, introspectTable env conn t = (e, Ok t')) ts ts'.
Proof.
  revert ts' evs; induction ts as [|t ts IH]; intros ts' evs H;
    cbn [introspectTables] in H.
  - unfold ret in H. injection H as <- <-. constructor.
  - bind_inv H as t1 H1. bind_inv H as rest' H2.
    unfold ret in H. injection H as <- <-.
    constructor; [eexists; exact H1 | exact (IH _ _ H2)].
Qed.

(** The tables handed to the second loop carry a name and nothing else. *)
Lemma introspectSchema_ok (env : Env) (conn : Conn) (tables : list Table)
    (evs : list Event) :
  introspectSchema env conn = (evs, Ok tables) ->
  exists names,
    Forall2 (fun n t' => exists e,
               introspectTable env conn (Table.mk n [] []) = (e, Ok t'))
            names tables.
Proof.
  unfold introspectSchema. intros H.
  bind_inv H as rows H1. bind_inv H as ts H2.
  unfold liftResult in H2. injection H2 as <- H2.
  apply scanTables_spec in H2. destruct H2 as [names ->]. cbn [app] in H.
  apply introspectTables_ok in H. exists names.
  clear - H. revert tables H. induction names as [|n names IH]; intros tables H.
  - inversion H. constructor.
  - inversion H as [|? t' ? rest' Hh Ht]; subst. constructor; [exact Hh | exact (IH _ Ht)].
Qed.

(** ** The cursor wrapper *)

Section ProgressDecorator.
Context {R : Type} `{pgxRows R}.

Lemma ProgressBarRows_Next_eq (r : ProgressBarRows.t R) :
  ProgressBarRows.Next r =
    (fst (Next (ProgressBarRows.Rows r)),
     ProgressBarRows.mk (snd (Next (ProgressBarRows.Rows r)))
       (if fst (Next (ProgressBarRows.Rows r))
        then Bar_Add 1 (ProgressBarRows.Bar r)
        else ProgressBarRows.Bar r)).
Proof.
  unfold ProgressBarRows.Next.
  destruct (Next (ProgressBarRows.Rows r)) as [[|] inner]; reflexivity.
Qed.

Lemma advance_wrapped (n : nat) (r : ProgressBarRows.t R) :
  fst (advance n r) = fst (advance n (ProgressBarRows.Rows r))
  /\ ProgressBarRows.Rows (snd (advance n r)) = snd (advance n (ProgressBarRows.Rows r))
  /\ barAdded (ProgressBarRows.Bar (snd (advance n r))) =
     (barAdded (ProgressBarRows.Bar r)
      + rowsAdvanced (fst (advance n (ProgressBarRows.Rows r))))%Z.
Proof.
  revert r; induction n as [|n IH]; intros r.
  - cbn. unfold rowsAdvanced. cbn. repeat split. lia.
  - cbn [advance].
    change (Next r) with (ProgressBarRows.Next r).
    rewrite ProgressBarRows_Next_eq.
    destruct (Next (ProgressBarRows.Rows r)) as [more inner] eqn:Hn.
    cbn [fst snd].
    specialize (IH (ProgressBarRows.mk inner
                      (if more then Bar_Add 1 (ProgressBarRows.Bar r)
                       else ProgressBarRows.Bar r))).
    cbn [ProgressBarRows.Rows ProgressBarRows.Bar] in IH.
    destruct IH as (IH1 & IH2 & IH3).
    destruct (advance n (ProgressBarRows.mk inner _)) as [answers rn] eqn:Hw.
    destruct (advance n inner) as [answers' innern] eqn:Hi.
    cbn [fst snd] in *. subst answers'. repeat split; [exact IH2|].
    rewrite IH3. unfold rowsAdvanced. destruct more; cbn [filter List.length Bar_Add barAdded];
      lia.
Qed.

Lemma advance_add (n m : nat) (r : R) :
  advance (n + m) r =
    (fst (advance n r) ++ fst (advance m (snd (advance n r))),
     snd (advance m (snd (advance n r)))).
Proof.
  revert r; induction n as [|n IH]; intros r.
  - cbn. destruct (advance m r); reflexivity.
  - cbn [Nat.add advance]. destruct (Next r) as [more r'].
    rewrite IH. destruct (advance n r') as [a1 r1]. cbn [fst snd].
    reflexivity.
Qed.

Lemma rowsAdvanced_nonneg (answers : list bool) : (0 <= rowsAdvanced answers)%Z.
Proof. unfold rowsAdvanced. lia. Qed.

End ProgressDecorator.

(** C8: [ProgressBarRows.Next] answers what the inner cursor's [Next]
    answers and leaves the inner cursor where its own [Next] leaves it;
    the bar is notified of one unit when the answer is [true] and is not
    touched when it is [false]; so after any number of calls the units
    notified have grown by the number of rows advanced to, and they never
    decrease from one call to the next.  [Values] and [Err] are those of
    the inner cursor. *)
Theorem progress_decorator {R : Type} `{pgxRows R} (r : ProgressBarRows.t R) :
  fst (ProgressBarRows.Next r) = fst (Next (ProgressBarRows.Rows r))
  /\ ProgressBarRows.Rows (snd (ProgressBarRows.Next r)) =
     snd (Next (ProgressBarRows.Rows r))
  /\ ProgressBarRows.Bar (snd (ProgressBarRows.Next r)) =
     (if fst (Next (ProgressBarRows.Rows r))
      then Bar_Add 1 (ProgressBarRows.Bar r)
      else ProgressBarRows.Bar r)
  /\ barAdded (ProgressBarRows.Bar (snd (ProgressBarRows.Next r))) =
     (barAdded (ProgressBarRows.Bar r)
      + (if fst (Next (ProgressBarRows.Rows r)) then 1 else 0))%Z
  /\ Values r = Values (ProgressBarRows.Rows r)
  /\ Err r = Err (ProgressBarRows.Rows r)
  /\ (forall n,
        fst (advance n r) = fst (advance n (ProgressBarRows.Rows r))
        /\ ProgressBarRows.Rows (snd (advance n r)) =
           snd (advance n (ProgressBarRows.Rows r))
        /\ barAdded (ProgressBarRows.Bar (snd (advance n r))) =
           (barAdded (ProgressBarRows.Bar r) + rowsAdvanced (fst (advance n r)))%Z)
  /\ (forall n m,
        (barAdded (ProgressBarRows.Bar (snd (advance n r)))
         <= barAdded (ProgressBarRows.Bar (snd (advance (n + m) r))))%Z).
Proof.
  rewrite ProgressBarRows_Next_eq. cbn [fst snd ProgressBarRows.Rows ProgressBarRows.Bar].
  repeat split.
  - destruct (fst (Next (ProgressBarRows.Rows r))); cbn [Bar_Add barAdded]; lia.
  - apply advance_wrapped.
  - apply advance_wrapped.
  - destruct (advance_wrapped n r) as (H1 & _ & H3). rewrite H1. exact H3.
  - intros n m. rewrite advance_add. cbn [snd].
    destruct (advance_wrapped m (snd (advance n r))) as (_ & _ & H3).
    rewrite H3.
    pose proof (rowsAdvanced_nonneg
                  (fst (advance m (ProgressBarRows.Rows (snd (advance n r)))))).
    lia.
Qed.

(** Two rows, four calls: the bar has been notified of two units. *)
Lemma progress_decorator_witness :
  fst (advance 4 sampleWrapped) = [true; true; false; false]
  /\ barAdded (ProgressBarRows.Bar (snd (advance 4 sampleWrapped))) = 2%Z.
Proof.
  destruct (proj1 (proj2 (proj2 (proj2 (proj2 (proj2 (proj2
              (progress_decorator sampleWrapped))))))) 4) as (H1 & _ & H3).
  split.
  - rewrite H1. reflexivity.
  - rewrite H3. reflexivity.
Defined.

(** ** The data phase *)

Lemma setAt_middle {A} (done : list A) (x y : A) (l : list A) :
  setAt (List.length done) x (done ++ y :: l) = done ++ x :: l.
Proof. induction done as [|d done IH]; cbn; [reflexivity | now rewrite IH]. Qed.

Lemma fillColumnNames_map (cols : list Column) (d1 d2 : list string) :
  List.length d1 = List.length d2 ->
  fillColumnNames (List.length d1) cols
    (d1 ++ repeat EmptyString (List.length cols))
    (d2 ++ repeat EmptyString (List.length cols)) =
  (d1 ++ map Column.Name cols,
   d2 ++ map (fun c => quoteIdent (Column.Name c)) cols).
Proof.
  revert d1 d2; induction cols as [|c cols IH]; intros d1 d2 Hlen.
  - reflexivity.
  - cbn [fillColumnNames List.length repeat map].
    rewrite setAt_middle. rewrite Hlen at 2. rewrite setAt_middle.
    replace (d1 ++ Column.Name c :: repeat EmptyString (List.length cols))
      with ((d1 ++ [Column.Name c]) ++ repeat EmptyString (List.length cols))
      by (now rewrite <- app_assoc).
    replace (d2 ++ (dquote ++ Column.Name c ++ dquote)%string
                :: repeat EmptyString (List.length cols))
      with ((d2 ++ [(dquote ++ Column.Name c ++ dquote)%string])
              ++ repeat EmptyString (List.length cols))
      by (now rewrite <- app_assoc).
    replace (S (List.length d1)) with (List.length (d1 ++ [Column.Name c]))
      by (rewrite length_app; cbn; lia).
    rewrite IH by (rewrite !length_app; cbn; lia).
    rewrite <- !app_assoc. reflexivity.
Qed.

(** The two slices hold the declared column names, plain and delimited,
    in declared order. *)
Lemma columnNameLists_map (t : Table) :
  columnNameLists t =
    (map Column.Name (Table.Columns t),
     map (fun c => quoteIdent (Column.Name c)) (Table.Columns t)).
Proof.
  unfold columnNameLists.
  exact (fillColumnNames_map (Table.Columns t) [] [] eq_refl).
Qed.

Lemma selectSQL_closed_form (t : Table) : selectSQL t = specSelect t.
Proof.
  unfold selectSQL, specSelect, quoteIdent. rewrite columnNameLists_map.
  cbn [snd]. now rewrite ?append_assoc.
Qed.

Lemma pushAll_accepted (env : Env) (conn : Conn) (tn cn : list string)
    (rows pushed : list Row) :
  snd (pushAll env conn tn cn rows pushed) = None ->
  fst (pushAll env conn tn cn rows pushed) = pushed ++ rows.
Proof.
  revert pushed; induction rows as [|row rows IH]; intros pushed H; cbn [pushAll] in *.
  - cbn. now rewrite app_nil_r.
  - destruct (envCopyRow env conn tn cn pushed row); [discriminate H|].
    rewrite (IH _ H). now rewrite <- app_assoc.
Qed.

Lemma pushAll_prefix (env : Env) (conn : Conn) (tn cn : list string)
    (rows pushed : list Row) :
  exists k, fst (pushAll env conn tn cn rows pushed) = pushed ++ firstn k rows.
Proof.
  revert pushed; induction rows as [|row rows IH]; intros pushed; cbn [pushAll].
  - exists 0. cbn. now rewrite app_nil_r.
  - destruct (envCopyRow env conn tn cn pushed row).
    + exists 0. cbn. now rewrite app_nil_r.
    + destruct (IH (pushed ++ [row])) as [k Hk]. exists (S k).
      rewrite Hk. cbn [firstn]. now rewrite <- app_assoc.
Qed.

(** The pull loop never runs out of its bound: on the cursor of a query
    it accepts rows as [pushAll] does and ends as [copyOutcome] says. *)
Lemma copyLoop_pushAll (env : Env) (conn : Conn) (tn cn : list string)
    (rows : list Row) (fuel : nat) (cur : Row) (fl rep : option error)
    (bar : ProgressBar) (pushed : list Row) :
  List.length rows <= fuel ->
  snd (fst (copyLoop env fuel conn tn cn
              (ProgressBarRows.mk (mkBaseRows rows cur fl rep) bar) pushed)) =
    fst (pushAll env conn tn cn rows pushed)
  /\ snd (copyLoop env fuel conn tn cn
            (ProgressBarRows.mk (mkBaseRows rows cur fl rep) bar) pushed) =
    match snd (pushAll env conn tn cn rows pushed) with
    | Some e => Some e
    | None =>
        match fl with
        | Some e =>
            Some (envCopyFail env conn tn cn
                    (fst (pushAll env conn tn cn rows pushed)) e)
        | None => envCopyEnd env conn tn cn (fst (pushAll env conn tn cn rows pushed))
        end
    end.
Proof.
  revert fuel cur rep bar pushed; induction rows as [|row rows IH];
    intros fuel cur rep bar pushed Hfuel.
  - destruct fuel; cbn; destruct fl; cbn; auto.
  - destruct fuel as [|fuel]; [cbn in Hfuel; lia|].
    cbn [copyLoop]. cbn [Next ProgressBarRows_pgxRows].
    unfold ProgressBarRows.Next.
    cbn [ProgressBarRows.Rows Next baseRows_pgxRows baseRows_Next pending
         failure reported Values current ProgressBarRows.Bar].
    cbn [pushAll]. cbv zeta.
    cbn [ProgressBarRows.Rows Next baseRows_pgxRows baseRows_Next pending
         failure reported Values current ProgressBarRows.Bar ProgressBarRows_pgxRows].
    destruct (envCopyRow env conn tn cn pushed row); [cbn; auto|].
    apply IH. cbn in Hfuel. lia.
Qed.

Lemma CopyFrom_run (env : Env) (conn : Conn) (tn cn : list string)
    (rows : list Row) (fl : option error) (bar : ProgressBar) :
  CopyFrom env conn tn cn (ProgressBarRows.mk (mkBaseRows rows [] fl None) bar) =
    ([EvCopyFrom conn tn cn (fst (copyOutcome env conn tn cn rows fl))
        (snd (copyOutcome env conn tn cn rows fl))],
     match snd (copyOutcome env conn tn cn rows fl) with
     | None => Ok (Z.of_nat (List.length (fst (copyOutcome env conn tn cn rows fl))))
     | Some e => Fail e
     end).
Proof.
  unfold CopyFrom. cbn [ProgressBarRows.Rows pending].
  destruct (copyLoop_pushAll env conn tn cn rows (List.length rows) [] fl None bar []
              (le_n _)) as [H1 H2].
  destruct (copyLoop env (List.length rows) conn tn cn _ []) as [[src' pushed] err].
  cbn [fst snd] in H1, H2. subst pushed err.
  unfold copyOutcome.
  destruct (pushAll env conn tn cn rows []) as [pushed [e|]]; cbn [fst snd];
    [reflexivity|].
  destruct fl; reflexivity.
Qed.

(** Everything [copyTable] can do, by what the environment answers. *)
Lemma copyTable_run (env : Env) (source dest : Conn) (t : Table) :
  copyTable env source dest t =
    let name := Table.Name t in
    let count := EvQueryRow source (countSQL name) in
    let query := EvQuery source (selectSQL t) [] in
    let cols := map Column.Name (Table.Columns t) in
    match envQueryRow env source (countSQL name) with
    | Fail e =>
        ([count], Fail (Errorf ("failed to get count for table " ++ name ++ ": ")%string e))
    | Ok row =>
        match scanInt env row with
        | Fail e =>
            ([count],
             Fail (Errorf ("failed to get count for table " ++ name ++ ": ")%string e))
        | Ok n =>
            if (n =? 0)%Z then ([count], Ok tt)
            else
              match envQuery env source (selectSQL t) [] with
              | Fail e =>
                  ([count; query],
                   Fail (Errorf ("failed to query rows from " ++ name ++ ": ")%string e))
              | Ok (rows, fl) =>
                  ([count; query;
                    EvCopyFrom dest [name] cols
                      (fst (copyOutcome env dest [name] cols rows fl))
                      (snd (copyOutcome env dest [name] cols rows fl))],
                   match snd (copyOutcome env dest [name] cols rows fl) with
                   | None => Ok tt
                   | Some e =>
                       Fail (Errorf ("failed to copy data for table " ++ name ++ ": ")%string e)
                   end)
              end
        end
    end.
Proof.
  cbv zeta. unfold copyTable, QueryRowInt.
  destruct (envQueryRow env source (countSQL (Table.Name t))) as [row|e]; [|reflexivity].
  destruct (scanInt env row) as [n|e]; [|reflexivity].
  cbn [wrapErr bind]. destruct (n =? 0)%Z; [reflexivity|].
  rewrite columnNameLists_map. cbn [fst].
  unfold Query.
  destruct (envQuery env source (selectSQL t) []) as [[rows fl]|e]; [|reflexivity].
  cbn [wrapErr bind]. rewrite CopyFrom_run.
  destruct (snd (copyOutcome env dest [Table.Name t]
                   (map Column.Name (Table.Columns t)) rows fl)); reflexivity.
Qed.

Lemma copyData_cons (env : Env) (source dest : Conn) (t : Table) (rest : list Table) :
  copyData env source dest (t :: rest) =
    match copyTable env source dest t with
    | (e1, Ok _) =>
        (e1 ++ fst (copyData env source dest rest), snd (copyData env source dest rest))
    | (e1, Fail e) => (e1, Fail e)
    end.
Proof.
  cbn [copyData]. unfold bind.
  destruct (copyTable env source dest t) as [e1 [[]|e]]; [|reflexivity].
  destruct (copyData env source dest rest); reflexivity.
Qed.

(** ** The destination after a log *)

(** Calls other than statements treat a table the same whatever it
    descends from. *)
Lemma tableRows_no_exec (conn : Conn) (name : string) (parents parents' : list string)
    (evs : list Event) (rows : list Row) :
  forallb (fun ev => negb (isExec ev)) evs = true ->
  tableRows conn name parents evs rows = tableRows conn name parents' evs rows.
Proof.
  revert rows; induction evs as [|ev evs IH]; intros rows; [reflexivity|].
  cbn [forallb]. rewrite andb_true_iff. intros [Hev H].
  destruct ev as [| |c sql r|c tn cn pushed [e|]]; try discriminate Hev;
    cbn [tableRows]; try exact (IH _ H).
  destruct (Conn_eqb c conn && isIdentifier name tn); exact (IH _ H).
Qed.

Lemma tableRows_app_l (conn : Conn) (name : string) (parents : list string)
    (e1 e2 : list Event) (rows : list Row) :
  forallb (fun ev => negb (isExec ev)) e1 = true ->
  tableRows conn name parents (e1 ++ e2) rows =
  tableRows conn name parents e2 (tableRows conn name parents e1 rows).
Proof.
  revert rows; induction e1 as [|ev e1 IH]; intros rows; [reflexivity|].
  cbn [forallb]. rewrite andb_true_iff. intros [Hev H].
  destruct ev as [| |c sql r|c tn cn pushed [e|]]; try discriminate Hev;
    cbn [app tableRows]; try exact (IH _ H).
  destruct (Conn_eqb c conn && isIdentifier name tn); exact (IH _ H).
Qed.

Lemma tableRows_app_r (conn : Conn) (name : string) (parents : list string)
    (e1 e2 : list Event) (rows : list Row) :
  forallb (fun ev => negb (isExec ev)) e2 = true ->
  tableRows conn name parents (e1 ++ e2) rows =
  tableRows conn name parents e2 (tableRows conn name parents e1 rows).
Proof.
  intros H. revert parents rows; induction e1 as [|ev e1 IH]; intros parents rows;
    [reflexivity|].
  cbn [app tableRows]. destruct ev as [| |c sql [e|]|c tn cn pushed [e|]];
    try apply IH.
  - destruct (Conn_eqb c conn && dropsOneOf (name :: parents) sql); [|apply IH].
    rewrite IH. apply tableRows_no_exec, H.
  - destruct (Conn_eqb c conn && isIdentifier name tn); apply IH.
Qed.

(** After a drop of the table that succeeds, what came before does not
    matter. *)
Lemma tableRows_app_drop (conn : Conn) (name : string) (parents : list string)
    (e1 e2 : list Event) (rows : list Row) :
  tableRows conn name parents
    (e1 ++ EvExec conn (dropTableSQL name) None :: e2) rows =
  tableRows conn name [] e2 [].
Proof.
  assert (Hc : Conn_eqb conn conn = true) by (destruct conn; reflexivity).
  assert (Hd : forall ps, dropsOneOf (name :: ps) (dropTableSQL name) = true).
  { intros ps. unfold dropsOneOf. cbn [existsb]. now rewrite String.eqb_refl. }
  revert parents rows; induction e1 as [|ev e1 IH]; intros parents rows.
  - cbn [app tableRows]. now rewrite Hc, Hd.
  - cbn [app tableRows]. destruct ev as [| |c sql [e|]|c tn cn pushed [e|]];
      try apply IH.
    + destruct (Conn_eqb c conn && dropsOneOf (name :: parents) sql); apply IH.
    + destruct (Conn_eqb c conn && isIdentifier name tn); apply IH.
Qed.

Lemma reads_no_exec (evs : list Event) :
  forallb isRead evs = true -> forallb (fun ev => negb (isExec ev)) evs = true.
Proof.
  induction evs as [|ev evs IH]; [reflexivity|].
  cbn [forallb]. rewrite !andb_true_iff. intros [Hev H].
  split; [destruct ev; try discriminate Hev; reflexivity | exact (IH H)].
Qed.

Lemma tableCreated_app (conn : Conn) (t : Table) (e1 e2 : list Event) (b : bool) :
  tableCreated conn t (e1 ++ e2) b =
  tableCreated conn t e2 (tableCreated conn t e1 b).
Proof.
  revert b; induction e1 as [|ev e1 IH]; intros b; [reflexivity|].
  cbn [app tableCreated]. destruct ev as [| |c sql [e|]|c tn cn pushed err];
    try apply IH.
  destruct (Conn_eqb c conn); [|apply IH].
  destruct (sql =? dropTableSQL (Table.Name t))%string; [apply IH|].
  destruct (sql =? createTableSQL t)%string; apply IH.
Qed.

Lemma tableRows_reads (conn : Conn) (name : string) (parents : list string)
    (evs : list Event) (rows : list Row) :
  forallb isRead evs = true -> tableRows conn name parents evs rows = rows.
Proof.
  induction evs as [|ev evs IH]; [reflexivity|].
  cbn [forallb]. rewrite andb_true_iff. intros [Hev H].
  destruct ev; try discriminate Hev; cbn [tableRows]; exact (IH H).
Qed.

Lemma tableCreated_no_exec (conn : Conn) (t : Table) (evs : list Event) (b : bool) :
  forallb (fun ev => negb (isExec ev)) evs = true -> tableCreated conn t evs b = b.
Proof.
  induction evs as [|ev evs IH]; [reflexivity|].
  cbn [forallb]. rewrite andb_true_iff. intros [Hev H].
  destruct ev; try discriminate Hev; cbn [tableCreated]; exact (IH H).
Qed.

Lemma bind_events_forallb {A B} (P : Event -> bool) (m : Run A) (k : A -> Run B) :
  forallb P (fst m) = true ->
  (forall a, forallb P (fst (k a)) = true) ->
  forallb P (fst (bind m k)) = true.
Proof.
  intros Hm Hk. unfold bind. destruct m as [e1 [a|e]]; [|exact Hm].
  specialize (Hk a). destruct (k a) as [e2 r]. cbn [fst] in *.
  rewrite forallb_app, Hm, Hk. reflexivity.
Qed.

Lemma introspectTable_reads (env : Env) (conn : Conn) (t : Table) :
  forallb isRead (fst (introspectTable env conn t)) = true.
Proof.
  unfold introspectTable.
  repeat (apply bind_events_forallb; [try (rewrite wrapErr_fst); reflexivity | intros ?]).
  reflexivity.
Qed.

Lemma introspectSchema_reads (env : Env) (conn : Conn) :
  forallb isRead (fst (introspectSchema env conn)) = true.
Proof.
  unfold introspectSchema.
  repeat (apply bind_events_forallb; [try (rewrite wrapErr_fst); reflexivity | intros ?]).
  match goal with |- context [introspectTables _ _ ?l] => induction l as [|t ts IH] end.
  - reflexivity.
  - cbn [introspectTables].
    apply bind_events_forallb; [apply introspectTable_reads | intros ?].
    apply bind_events_forallb; [exact IH | intros ?]. reflexivity.
Qed.

Lemma copyTable_no_exec (env : Env) (source dest : Conn) (t : Table) :
  forallb (fun ev => negb (isExec ev)) (fst (copyTable env source dest t)) = true.
Proof.
  rewrite copyTable_run. cbv zeta.
  destruct (envQueryRow env source (countSQL (Table.Name t))) as [row|e]; [|reflexivity].
  destruct (scanInt env row) as [n|e]; [|reflexivity].
  destruct (n =? 0)%Z; [reflexivity|].
  destruct (envQuery env source (selectSQL t) []) as [[rows fl]|e]; reflexivity.
Qed.

Lemma copyData_no_exec (env : Env) (source dest : Conn) (tables : list Table) :
  forallb (fun ev => negb (isExec ev)) (fst (copyData env source dest tables)) = true.
Proof.
  induction tables as [|t rest IH]; [reflexivity|].
  cbn [copyData]. apply bind_events_forallb; [apply copyTable_no_exec | intros _; exact IH].
Qed.

Lemma dropTableSQL_inj (a b : string) : dropTableSQL a = dropTableSQL b -> a = b.
Proof.
  unfold dropTableSQL. intros H.
  apply append_inv_head, append_inv_head in H.
  exact (append_inv_tail _ _ _ H).
Qed.

Lemma createTableSQL_not_drop (t : Table) (name : string) :
  (createTableSQL t =? dropTableSQL name)%string = false.
Proof.
  apply String.eqb_neq. rewrite createTableSQL_closed_form.
  unfold specCreateTable, dropTableSQL. cbn. intros H. discriminate H.
Qed.

Lemma dropTableSQL_eqb (a b : string) :
  (dropTableSQL a =? dropTableSQL b)%string = (a =? b)%string.
Proof.
  destruct (String.eqb_spec a b) as [->|Hne].
  - apply String.eqb_refl.
  - apply String.eqb_neq. intros H. apply Hne, dropTableSQL_inj, H.
Qed.

Lemma dropTableSQL_not_create (t : Table) (name : string) :
  (dropTableSQL name =? createTableSQL t)%string = false.
Proof. rewrite String.eqb_sym. apply createTableSQL_not_drop. Qed.

(** A schema phase that succeeds has dropped and created every table,
    in snapshot order. *)
Lemma createSchema_ok (env : Env) (conn : Conn) (tables : list Table) (evs : list Event) :
  createSchema env conn tables = (evs, Ok tt) -> evs = schemaEvents conn tables.
Proof.
  revert evs; induction tables as [|t rest IH]; intros evs H; cbn [createSchema] in H.
  - unfold ret in H. injection H as <-. reflexivity.
  - apply bind_ok_inv in H. destruct H as (e1 & [] & e2 & H1 & H2 & ->).
    rewrite createTable_run in H1.
    destruct (envExec env conn (dropTableSQL (Table.Name t))); [discriminate H1|].
    destruct (envExec env conn (createTableSQL t)); [discriminate H1|].
    injection H1 as <-. rewrite (IH _ H2). reflexivity.
Qed.

Lemma dropsOneOf_create (names : list string) (t : Table) :
  dropsOneOf names (createTableSQL t) = false.
Proof.
  unfold dropsOneOf. induction names as [|n names IH]; [reflexivity|].
  cbn [existsb]. rewrite createTableSQL_not_drop, IH. reflexivity.
Qed.

Lemma dropsOneOf_drop (names : list string) (n : string) :
  dropsOneOf names (dropTableSQL n) = existsb (fun m => (n =? m)%string) names.
Proof.
  unfold dropsOneOf. induction names as [|m names IH]; [reflexivity|].
  cbn [existsb]. rewrite dropTableSQL_eqb, IH. reflexivity.
Qed.

Lemma schemaEvents_rows_empty (conn : Conn) (name : string) (parents : list string)
    (tables : list Table) :
  tableRows conn name parents (schemaEvents conn tables) [] = [].
Proof.
  revert parents; induction tables as [|t rest IH]; intros parents; [reflexivity|].
  cbn [schemaEvents flat_map app tableRows]. fold (schemaEvents conn rest).
  destruct (Conn_eqb conn conn && dropsOneOf (name :: parents) (dropTableSQL (Table.Name t))).
  - destruct (Conn_eqb conn conn && dropsOneOf [name] (createTableSQL t)); apply IH.
  - destruct (Conn_eqb conn conn && dropsOneOf (name :: parents) (createTableSQL t));
      apply IH.
Qed.

(** A schema phase that succeeds empties the table exactly when the
    snapshot holds the table or one of the tables it descends from. *)
Lemma schemaEvents_rows (conn : Conn) (name : string) (parents : list string)
    (tables : list Table) (rows : list Row) :
  tableRows conn name parents (schemaEvents conn tables) rows =
    if existsb (fun t => existsb (fun m => (Table.Name t =? m)%string) (name :: parents))
         tables
    then [] else rows.
Proof.
  revert rows; induction tables as [|t rest IH]; intros rows; [reflexivity|].
  cbn [schemaEvents flat_map app tableRows]. fold (schemaEvents conn rest).
  assert (Hc : Conn_eqb conn conn = true) by (destruct conn; reflexivity).
  rewrite Hc, dropsOneOf_drop. cbn [andb].
  change (existsb (fun t0 => existsb (fun m => (Table.Name t0 =? m)%string)
                               (name :: parents)) (t :: rest))
    with (existsb (fun m => (Table.Name t =? m)%string) (name :: parents)
          || existsb (fun t0 => existsb (fun m => (Table.Name t0 =? m)%string)
                                  (name :: parents)) rest).
  destruct (existsb (fun m => (Table.Name t =? m)%string) (name :: parents)).
  - rewrite dropsOneOf_create. cbn [orb andb]. apply schemaEvents_rows_empty.
  - rewrite dropsOneOf_create. cbn [orb andb]. apply IH.
Qed.

Lemma existsb_name_or_parent (t : Table) (parents : list string) (tables : list Table) :
  In t tables ->
  existsb (fun t' => existsb (fun m => (Table.Name t' =? m)%string)
                       (Table.Name t :: parents)) tables = true.
Proof.
  intros H. apply existsb_exists. exists t. split; [exact H|].
  cbn [existsb]. now rewrite String.eqb_refl.
Qed.

Lemma schemaEvents_created_keep (conn : Conn) (t : Table) (tables : list Table) :
  ~ In (Table.Name t) (map Table.Name tables) ->
  tableCreated conn t (schemaEvents conn tables) true = true.
Proof.
  induction tables as [|t' rest IH]; intros Hnot; [reflexivity|].
  cbn [schemaEvents flat_map app tableCreated]. fold (schemaEvents conn rest).
  assert (Hc : Conn_eqb conn conn = true) by (destruct conn; reflexivity).
  rewrite Hc, dropTableSQL_eqb, createTableSQL_not_drop.
  cbn [map In] in Hnot.
  replace (Table.Name t' =? Table.Name t)%string with false
    by (symmetry; apply String.eqb_neq; intros E; apply Hnot; left; exact E).
  rewrite dropTableSQL_not_create.
  assert (IH' : tableCreated conn t (schemaEvents conn rest) true = true)
    by (apply IH; intros E; apply Hnot; right; exact E).
  destruct (createTableSQL t' =? createTableSQL t)%string; exact IH'.
Qed.

Lemma schemaEvents_created (conn : Conn) (t : Table) (tables : list Table) (b : bool) :
  NoDup (map Table.Name tables) -> In t tables ->
  tableCreated conn t (schemaEvents conn tables) b = true.
Proof.
  revert b; induction tables as [|t' rest IH]; intros b Hnd Hin; [contradiction|].
  cbn [map] in Hnd. apply NoDup_cons_iff in Hnd. destruct Hnd as [Hnot Hnd].
  cbn [schemaEvents flat_map app tableCreated]. fold (schemaEvents conn rest).
  assert (Hc : Conn_eqb conn conn = true) by (destruct conn; reflexivity).
  rewrite Hc, dropTableSQL_eqb, createTableSQL_not_drop, dropTableSQL_not_create.
  destruct Hin as [->|Hin].
  - rewrite !String.eqb_refl. apply schemaEvents_created_keep, Hnot.
  - destruct (Table.Name t' =? Table.Name t)%string;
      destruct (createTableSQL t' =? createTableSQL t)%string; apply IH; assumption.
Qed.

(** The calls of [copyTable] for one table leave the rows of every
    other table alone. *)
Lemma copyTable_other (env : Env) (t : Table) (name : string) (parents : list string)
    (rows0 : list Row) :
  Table.Name t <> name ->
  tableRows Dest name parents (fst (copyTable env Source Dest t)) rows0 = rows0.
Proof.
  intros Hne. rewrite copyTable_run. cbv zeta.
  destruct (envQueryRow env Source (countSQL (Table.Name t))) as [row|e]; [|reflexivity].
  destruct (scanInt env row) as [n|e]; [|reflexivity].
  destruct (n =? 0)%Z; [reflexivity|].
  destruct (envQuery env Source (selectSQL t) []) as [[rows fl]|e]; [|reflexivity].
  cbn [fst tableRows Conn_eqb andb isIdentifier].
  apply String.eqb_neq in Hne. rewrite Hne.
  destruct (snd (copyOutcome env Dest [Table.Name t]
                   (map Column.Name (Table.Columns t)) rows fl)); reflexivity.
Qed.

Lemma copyData_fst_cons (env : Env) (t : Table) (rest : list Table) :
  exists tail,
    fst (copyData env Source Dest (t :: rest)) =
      fst (copyTable env Source Dest t) ++ tail
    /\ (tail = [] \/ tail = fst (copyData env Source Dest rest)).
Proof.
  rewrite copyData_cons.
  destruct (copyTable env Source Dest t) as [e1 [[]|e]]; cbn [fst].
  - eexists; split; [reflexivity | right; reflexivity].
  - exists []. split; [now rewrite app_nil_r | left; reflexivity].
Qed.

Lemma copyData_other (env : Env) (tables : list Table) (name : string)
    (parents : list string) (rows0 : list Row) :
  ~ In name (map Table.Name tables) ->
  tableRows Dest name parents (fst (copyData env Source Dest tables)) rows0 = rows0.
Proof.
  induction tables as [|t rest IH]; intros Hnot; [reflexivity|].
  cbn [map In] in Hnot.
  destruct (copyData_fst_cons env t rest) as (tail & -> & Htail).
  rewrite tableRows_app_l by apply copyTable_no_exec.
  rewrite copyTable_other by (intros E; apply Hnot; left; exact E).
  destruct Htail as [->| ->]; [reflexivity|].
  apply IH. intros E. apply Hnot. right. exact E.
Qed.

(** A table whose count is zero: one count query, and on to the next. *)
Lemma copyTable_empty (env : Env) (t : Table) :
  envQueryRow env Source (countSQL (Table.Name t)) = Ok [VInt 0] ->
  copyTable env Source Dest t = ([EvQueryRow Source (countSQL (Table.Name t))], Ok tt).
Proof. intros H. rewrite copyTable_run. cbv zeta. rewrite H. reflexivity. Qed.

(** A table whose content the source reports faithfully, copied with
    success: nothing for an empty table, otherwise one bulk load of all
    its rows under the declared column list. *)
Lemma copyTable_content (env : Env) (t : Table) (rows : list Row) (e1 : list Event) :
  envQueryRow env Source (countSQL (Table.Name t)) =
    Ok [VInt (Z.of_nat (List.length rows))] ->
  envQuery env Source (selectSQL t) [] = Ok (rows, None) ->
  copyTable env Source Dest t = (e1, Ok tt) ->
  e1 = match rows with
       | [] => [EvQueryRow Source (countSQL (Table.Name t))]
       | _ :: _ =>
           [EvQueryRow Source (countSQL (Table.Name t));
            EvQuery Source (selectSQL t) [];
            EvCopyFrom Dest [Table.Name t] (map Column.Name (Table.Columns t)) rows None]
       end.
Proof.
  intros Hc Hq. rewrite copyTable_run. cbv zeta. rewrite Hc. cbn [scanInt].
  destruct rows as [|row rows].
  - cbn. intros H. injection H as <-. reflexivity.
  - replace (Z.of_nat (List.length (row :: rows)) =? 0)%Z with false
      by (symmetry; apply Z.eqb_neq; cbn [List.length]; lia).
    rewrite Hq. unfold copyOutcome.
    pose proof (pushAll_accepted env Dest [Table.Name t]
                  (map Column.Name (Table.Columns t)) (row :: rows) []) as Hacc.
    destruct (pushAll env Dest [Table.Name t] (map Column.Name (Table.Columns t))
                (row :: rows) []) as [pushed [e|]]; cbn [fst snd] in *.
    + intros H. discriminate H.
    + rewrite (Hacc eq_refl). cbn [app].
      destruct (envCopyEnd env Dest [Table.Name t] (map Column.Name (Table.Columns t))
                  (row :: rows)); intros H; [discriminate H|].
      injection H as <-. reflexivity.
Qed.

(** ** The whole run *)

Lemma migrate_run (env : Env) (tables : list Table) (evsI : list Event) :
  introspectSchema env Source = (evsI, Ok tables) ->
  migrate env Source Dest =
    match createSchema env Dest tables with
    | (evsS, Ok _) =>
        match copyData env Source Dest tables with
        | (evsC, Ok _) => (evsI ++ evsS ++ evsC, Ok tt)
        | (evsC, Fail e) =>
            (evsI ++ evsS ++ evsC, Fail (Errorf "failed to copy data: " e))
        end
    | (evsS, Fail e) => (evsI ++ evsS, Fail (Errorf "failed to create schema: " e))
    end.
Proof.
  intros H. unfold migrate. rewrite H. cbn [wrapErr bind].
  destruct (createSchema env Dest tables) as [evsS [[]|e]]; cbn [wrapErr bind];
    [|reflexivity].
  destruct (copyData env Source Dest tables) as [evsC [[]|e]]; reflexivity.
Qed.

Lemma migrate_events (env : Env) (tables : list Table) (evsI evsS : list Event) :
  introspectSchema env Source = (evsI, Ok tables) ->
  createSchema env Dest tables = (evsS, Ok tt) ->
  fst (migrate env Source Dest) =
    evsI ++ evsS ++ fst (copyData env Source Dest tables).
Proof.
  intros HI HS. rewrite (migrate_run env tables evsI HI), HS.
  destruct (copyData env Source Dest tables) as [evsC [[]|e]]; reflexivity.
Qed.

Lemma introspectSchema_events_reads (env : Env) (evsI : list Event) (r : result (list Table)) :
  introspectSchema env Source = (evsI, r) -> forallb isRead evsI = true.
Proof.
  intros H. pose proof (introspectSchema_reads env Source) as Hr.
  rewrite H in Hr. exact Hr.
Qed.

(** The copy phase gives a faithfully reported table exactly its rows. *)
Lemma copyData_rows (env : Env) (tables : list Table) (t : Table) (rows : list Row)
    (evsC : list Event) (parents : list string) (rows0 : list Row) :
  NoDup (map Table.Name tables) -> In t tables ->
  envQueryRow env Source (countSQL (Table.Name t)) =
    Ok [VInt (Z.of_nat (List.length rows))] ->
  envQuery env Source (selectSQL t) [] = Ok (rows, None) ->
  copyData env Source Dest tables = (evsC, Ok tt) ->
  tableRows Dest (Table.Name t) parents evsC rows0 = rows0 ++ rows
  /\ (rows <> [] ->
      In (EvQuery Source (selectSQL t) []) evsC /\
      In (EvCopyFrom Dest [Table.Name t] (map Column.Name (Table.Columns t)) rows None)
         evsC).
Proof.
  intros Hnd Hin Hc Hq. revert evsC rows0.
  induction tables as [|t0 rest IH]; intros evsC rows0 H; [contradiction|].
  cbn [map] in Hnd. apply NoDup_cons_iff in Hnd. destruct Hnd as [Hnot Hnd].
  cbn [copyData] in H. apply bind_ok_inv in H.
  destruct H as (e1 & [] & e2 & H1 & H2 & ->).
  assert (Hne1 : forallb (fun ev => negb (isExec ev)) e1 = true).
  { pose proof (copyTable_no_exec env Source Dest t0) as Hx.
    rewrite H1 in Hx. exact Hx. }
  rewrite (tableRows_app_l Dest _ parents e1 e2 rows0 Hne1). destruct Hin as [->|Hin].
  - apply (copyTable_content env t rows e1 Hc Hq) in H1. subst e1.
    pose proof (copyData_other env rest (Table.Name t) parents) as Hrest.
    rewrite H2 in Hrest. cbn [fst] in Hrest. rewrite (Hrest _ Hnot).
    destruct rows as [|row rows].
    + split; [cbn; now rewrite app_nil_r | intros Hne; contradiction].
    + cbn [tableRows Conn_eqb andb isIdentifier]. rewrite String.eqb_refl.
      split; [reflexivity|]. intros _. cbn; auto.
  - assert (Hne : Table.Name t0 <> Table.Name t).
    { intros E. apply Hnot. rewrite E. apply in_map, Hin. }
    pose proof (copyTable_other env t0 (Table.Name t) parents rows0 Hne) as Hoth.
    rewrite H1 in Hoth. cbn [fst] in Hoth. rewrite Hoth.
    destruct (IH Hnd Hin e2 rows0 H2) as [IH1 IH2].
    split; [exact IH1|]. intros Hrows. destruct (IH2 Hrows) as [Ha Hb].
    split; apply in_or_app; right; assumption.
Qed.

(** The copy phase never touches a table whose count is zero. *)
Lemma copyData_skipped (env : Env) (tables : list Table) (t : Table)
    (parents : list string) (rows0 : list Row) :
  NoDup (map Table.Name tables) -> In t tables ->
  envQueryRow env Source (countSQL (Table.Name t)) = Ok [VInt 0] ->
  tableRows Dest (Table.Name t) parents (fst (copyData env Source Dest tables)) rows0
    = rows0.
Proof.
  intros Hnd Hin Hc. induction tables as [|t0 rest IH]; [contradiction|].
  cbn [map] in Hnd. apply NoDup_cons_iff in Hnd. destruct Hnd as [Hnot Hnd].
  destruct (copyData_fst_cons env t0 rest) as (tail & -> & Htail).
  rewrite tableRows_app_l by apply copyTable_no_exec. destruct Hin as [->|Hin].
  - rewrite (copyTable_empty env t Hc). cbn [fst tableRows].
    destruct Htail as [->| ->]; [reflexivity|].
    apply copyData_other, Hnot.
  - rewrite copyTable_other
      by (intros E; apply Hnot; rewrite E; apply in_map, Hin).
    destruct Htail as [->| ->]; [reflexivity|]. exact (IH Hnd Hin).
Qed.

(** The round trip for a table of the snapshot: after a successful
    migration, a table whose [N] rows the source reports faithfully (its
    count is [N], the select delivers the rows without read error) holds
    exactly these rows on the destination, in
    source order and with the values as delivered, whatever it held
    before; it stands there as created from the snapshot; the select
    statement names the declared columns, delimited, in declared order;
    and unless the table is empty the rows went in one bulk load whose
    column list is the declared column names in declared order. *)
Theorem row_round_trip (env : Env) (tables : list Table) (t : Table)
    (rows : list Row) (evsI evs : list Event) (parents : list string) (init : list Row) :
  introspectSchema env Source = (evsI, Ok tables) ->
  migrate env Source Dest = (evs, Ok tt) ->
  NoDup (map Table.Name tables) ->
  In t tables ->
  envQueryRow env Source (countSQL (Table.Name t)) =
    Ok [VInt (Z.of_nat (List.length rows))] ->
  envQuery env Source (selectSQL t) [] = Ok (rows, None) ->
  tableRows Dest (Table.Name t) parents evs init = rows
  /\ tableCreated Dest t evs false = true
  /\ selectSQL t =
       ("SELECT "
        ++ joinStrings (map (fun c => dquote ++ Column.Name c ++ dquote) (Table.Columns t)) ", "
        ++ " FROM " ++ dquote ++ Table.Name t ++ dquote)%string
  /\ (rows <> [] ->
      In (EvQuery Source (selectSQL t) []) evs /\
      In (EvCopyFrom Dest [Table.Name t] (map Column.Name (Table.Columns t)) rows None)
         evs).
Proof.
  intros HI HM Hnd Hin Hc Hq.
  rewrite (migrate_run env tables evsI HI) in HM.
  destruct (createSchema env Dest tables) as [evsS [[]|e]] eqn:HS; [|discriminate HM].
  destruct (copyData env Source Dest tables) as [evsC [[]|e]] eqn:HC; [|discriminate HM].
  injection HM as <-.
  apply createSchema_ok in HS. subst evsS.
  pose proof (introspectSchema_events_reads env evsI _ HI) as Hreads.
  destruct (copyData_rows env tables t rows evsC parents [] Hnd Hin Hc Hq HC)
    as [Hrows Hev].
  assert (HneC : forallb (fun ev => negb (isExec ev)) evsC = true).
  { pose proof (copyData_no_exec env Source Dest tables) as Hne.
    rewrite HC in Hne. exact Hne. }
  repeat split.
  - rewrite tableRows_app_l by (apply reads_no_exec, Hreads).
    rewrite tableRows_app_r by exact HneC.
    rewrite (tableRows_reads Dest _ _ evsI) by exact Hreads.
    rewrite schemaEvents_rows, existsb_name_or_parent by exact Hin. exact Hrows.
  - rewrite !tableCreated_app.
    rewrite (tableCreated_no_exec Dest t evsC)
      by (pose proof (copyData_no_exec env Source Dest tables) as Hne;
          rewrite HC in Hne; exact Hne).
    apply schemaEvents_created; assumption.
  - rewrite selectSQL_closed_form. unfold specSelect, quoteIdent.
    now rewrite ?append_assoc.
  - apply in_or_app; right; apply in_or_app; right. apply (Hev H).
  - apply in_or_app; right; apply in_or_app; right. apply (Hev H).
Qed.

Lemma sampleTables_NoDup : NoDup (map Table.Name sampleTables).
Proof.
  repeat constructor; cbn; intuition discriminate.
Defined.

(** The three rows of [users] in the sample run. *)
Lemma row_round_trip_example :
  tableRows Dest "users" [] (fst (migrate sampleEnv Source Dest)) [[VText "stale"]]
    = sampleUsersRows
  /\ In (EvCopyFrom Dest ["users"] ["id"; "name"; "note"] sampleUsersRows None)
        (fst (migrate sampleEnv Source Dest)).
Proof.
  assert (HI : introspectSchema sampleEnv Source =
               (fst (introspectSchema sampleEnv Source), Ok sampleTables))
    by (vm_compute; reflexivity).
  assert (HM : migrate sampleEnv Source Dest =
               (fst (migrate sampleEnv Source Dest), Ok tt))
    by (vm_compute; reflexivity).
  assert (Hin : In sampleUsers sampleTables) by (cbn; auto).
  assert (Hc : envQueryRow sampleEnv Source (countSQL (Table.Name sampleUsers)) =
               Ok [VInt (Z.of_nat (List.length sampleUsersRows))])
    by (vm_compute; reflexivity).
  assert (Hq : envQuery sampleEnv Source (selectSQL sampleUsers) [] =
               Ok (sampleUsersRows, None))
    by (vm_compute; reflexivity).
  pose proof (row_round_trip sampleEnv sampleTables sampleUsers sampleUsersRows
                _ _ [] [[VText "stale"]] HI HM sampleTables_NoDup Hin Hc Hq)
    as (H1 & _ & _ & H4).
  split; [exact H1|]. apply H4. discriminate.
Defined.

(** C4: a table of the snapshot whose count query answers zero costs
    that one query and nothing else: no cursor is opened on the source,
    nothing is written to the destination, the rows of no destination
    table change, the step ends without error and the loop goes on with
    the next table.  Over the whole run the table, created by the schema
    phase, still stands with the structure of its create statement, and
    it is empty. *)
Theorem zero_row_skip (env : Env) (tables : list Table) (t : Table)
    (evsI evsS : list Event) (init : list Row) :
  introspectSchema env Source = (evsI, Ok tables) ->
  createSchema env Dest tables = (evsS, Ok tt) ->
  NoDup (map Table.Name tables) ->
  In t tables ->
  envQueryRow env Source (countSQL (Table.Name t)) = Ok [VInt 0] ->
  copyTable env Source Dest t = ([EvQueryRow Source (countSQL (Table.Name t))], Ok tt)
  /\ forallb (fun ev => negb (opensCursor Source ev) && negb (writesTo Dest ev))
       (fst (copyTable env Source Dest t)) = true
  /\ (forall name parents rows0,
        tableRows Dest name parents (fst (copyTable env Source Dest t)) rows0 = rows0)
  /\ (forall rest,
        copyData env Source Dest (t :: rest) =
          (EvQueryRow Source (countSQL (Table.Name t))
             :: fst (copyData env Source Dest rest),
           snd (copyData env Source Dest rest)))
  /\ (forall parents,
        tableRows Dest (Table.Name t) parents (fst (migrate env Source Dest)) init = [])
  /\ tableCreated Dest t (fst (migrate env Source Dest)) false = true.
Proof.
  intros HI HS Hnd Hin Hc.
  pose proof (copyTable_empty env t Hc) as Hskip.
  split; [exact Hskip|]. rewrite Hskip. cbn [fst].
  split; [reflexivity|]. split; [reflexivity|]. split.
  - intros rest. rewrite copyData_cons, Hskip. reflexivity.
  - rewrite (migrate_events env tables evsI evsS HI HS).
    apply createSchema_ok in HS. subst evsS.
    pose proof (introspectSchema_events_reads env evsI _ HI) as Hreads.
    split.
    + intros parents.
      rewrite tableRows_app_l by (apply reads_no_exec, Hreads).
      rewrite tableRows_app_r by apply copyData_no_exec.
      rewrite (tableRows_reads Dest _ _ evsI) by exact Hreads.
      rewrite schemaEvents_rows, existsb_name_or_parent by exact Hin.
      apply copyData_skipped; assumption.
    + rewrite !tableCreated_app.
      rewrite (tableCreated_no_exec Dest t (fst (copyData env Source Dest tables)))
        by apply copyData_no_exec.
      apply schemaEvents_created; assumption.
Qed.

(** [audit] has no rows in the sample run. *)
Lemma zero_row_skip_witness :
  copyTable sampleEnv Source Dest sampleAudit =
    ([EvQueryRow Source (countSQL "audit")], Ok tt)
  /\ tableRows Dest "audit" [] (fst (migrate sampleEnv Source Dest)) [[VText "stale"]]
     = []
  /\ tableCreated Dest sampleAudit (fst (migrate sampleEnv Source Dest)) false = true.
Proof.
  assert (HI : introspectSchema sampleEnv Source =
               (fst (introspectSchema sampleEnv Source), Ok sampleTables))
    by (vm_compute; reflexivity).
  assert (HS : createSchema sampleEnv Dest sampleTables =
               (fst (createSchema sampleEnv Dest sampleTables), Ok tt))
    by (vm_compute; reflexivity).
  assert (Hin : In sampleAudit sampleTables) by (cbn; auto).
  assert (Hc : envQueryRow sampleEnv Source (countSQL (Table.Name sampleAudit)) =
               Ok [VInt 0])
    by (vm_compute; reflexivity).
  pose proof (zero_row_skip sampleEnv sampleTables sampleAudit _ _ [[VText "stale"]]
                HI HS sampleTables_NoDup Hin Hc)
    as (H1 & _ & _ & _ & H5 & H6).
  split; [exact H1 | split; [exact (H5 []) | exact H6]].
Defined.

(** ** Failures of the data phase *)

Lemma copyData_app_fail (env : Env) (pre post : list Table) (T : Table)
    (evsPre evsT : list Event) (msg : error) :
  copyData env Source Dest pre = (evsPre, Ok tt) ->
  copyTable env Source Dest T = (evsT, Fail msg) ->
  copyData env Source Dest (pre ++ T :: post) = (evsPre ++ evsT, Fail msg).
Proof.
  revert evsPre; induction pre as [|t0 pre IH]; intros evsPre Hpre HT.
  - cbn in Hpre. unfold ret in Hpre. injection Hpre as <-.
    cbn [app]. rewrite copyData_cons, HT. reflexivity.
  - cbn [copyData] in Hpre. apply bind_ok_inv in Hpre.
    destruct Hpre as (e1 & [] & e2 & H1 & H2 & ->).
    cbn [app]. rewrite copyData_cons, H1, (IH _ H2 HT). cbn [fst snd].
    now rewrite app_assoc.
Qed.

Lemma copyOutcome_prefix (env : Env) (conn : Conn) (tn cn : list string)
    (rows : list Row) (fl : option error) :
  exists k, fst (copyOutcome env conn tn cn rows fl) = firstn k rows.
Proof.
  unfold copyOutcome.
  destruct (pushAll_prefix env conn tn cn rows []) as [k Hk].
  destruct (pushAll env conn tn cn rows []) as [pushed [e|]]; cbn [fst] in *;
    [exists k; exact Hk|].
  destruct fl; exists k; exact Hk.
Qed.

(** The three ways [copyTable] fails, each with the table's name in the
    message and the failing call last in the log. *)
Lemma copyTable_fail_inv (env : Env) (T : Table) (evsT : list Event) (msg : error) :
  copyTable env Source Dest T = (evsT, Fail msg) ->
  (exists e,
     msg = ("failed to get count for table " ++ Table.Name T ++ ": " ++ e)%string /\
     evsT = [EvQueryRow Source (countSQL (Table.Name T))])
  \/ (exists e,
        msg = ("failed to query rows from " ++ Table.Name T ++ ": " ++ e)%string /\
        envQuery env Source (selectSQL T) [] = Fail e /\
        evsT = [EvQueryRow Source (countSQL (Table.Name T));
                EvQuery Source (selectSQL T) []])
  \/ (exists e pushed rows fl k,
        msg = ("failed to copy data for table " ++ Table.Name T ++ ": " ++ e)%string /\
        envQuery env Source (selectSQL T) [] = Ok (rows, fl) /\
        pushed = firstn k rows /\
        evsT = [EvQueryRow Source (countSQL (Table.Name T));
                EvQuery Source (selectSQL T) [];
                EvCopyFrom Dest [Table.Name T] (map Column.Name (Table.Columns T))
                  pushed (Some e)]).
Proof.
  rewrite copyTable_run. cbv zeta. unfold Errorf.
  destruct (envQueryRow env Source (countSQL (Table.Name T))) as [row|e].
  - destruct (scanInt env row) as [n|e].
    + destruct (n =? 0)%Z; [intros H; discriminate H|].
      destruct (envQuery env Source (selectSQL T) []) as [[rows fl]|e] eqn:Hq.
      * destruct (copyOutcome_prefix env Dest [Table.Name T]
                    (map Column.Name (Table.Columns T)) rows fl) as [k Hk].
        destruct (copyOutcome env Dest [Table.Name T]
                    (map Column.Name (Table.Columns T)) rows fl) as [pushed [e|]];
          cbn [fst snd] in *; intros H; [|discriminate H].
        injection H as <- <-. right; right.
        exists e, pushed, rows, fl, k. rewrite !append_assoc. auto.
      * intros H. injection H as <- <-. right; left.
        exists e. rewrite !append_assoc. auto.
    + intros H. injection H as <- <-. left. exists e. rewrite !append_assoc. auto.
  - intros H. injection H as <- <-. left. exists e. rewrite !append_assoc. auto.
Qed.

(** ** The statements the schema phase executes *)

Local Open Scope list_scope.

Lemma createSchema_cons (env : Env) (conn : Conn) (t : Table) (rest : list Table) :
  createSchema env conn (t :: rest) =
    match createTable env conn t with
    | (e1, Ok _) =>
        (e1 ++ fst (createSchema env conn rest), snd (createSchema env conn rest))
    | (e1, Fail e) => (e1, Fail e)
    end.
Proof.
  cbn [createSchema]. unfold bind.
  destruct (createTable env conn t) as [e1 [[]|e]]; [|reflexivity].
  destruct (createSchema env conn rest); reflexivity.
Qed.

Lemma schemaEvents_closed (conn : Conn) (tables : list Table) :
  schemaEvents conn tables =
    flat_map (fun t => [EvExec conn (dropTableSQL (Table.Name t)) None;
                        EvExec conn (specCreateTable t) None]) tables.
Proof.
  unfold schemaEvents. induction tables as [|t rest IH]; [reflexivity|].
  cbn [flat_map]. rewrite IH, createTableSQL_closed_form. reflexivity.
Qed.

(** Whatever the destination answers, the schema phase sends nothing
    but drop and create statements of snapshot tables. *)
Lemma createSchema_calls (env : Env) (conn : Conn) (tables : list Table) :
  Forall (fun ev => exists t r,
            In t tables /\
            (ev = EvExec conn (dropTableSQL (Table.Name t)) r \/
             ev = EvExec conn (specCreateTable t) r))
         (fst (createSchema env conn tables)).
Proof.
  induction tables as [|t rest IH]; [constructor|].
  rewrite createSchema_cons, createTable_run, createTableSQL_closed_form.
  assert (Hrest : Forall (fun ev => exists t0 r,
            In t0 (t :: rest) /\
            (ev = EvExec conn (dropTableSQL (Table.Name t0)) r \/
             ev = EvExec conn (specCreateTable t0) r))
         (fst (createSchema env conn rest))).
  { eapply Forall_impl; [|exact IH]. intros ev (t0 & r & Hin & Hev).
    exists t0, r. split; [right; exact Hin | exact Hev]. }
  destruct (envExec env conn (dropTableSQL (Table.Name t))) as [e|]; cbn [fst].
  - constructor; [|constructor]. exists t, (Some e). split; [left; reflexivity | auto].
  - destruct (envExec env conn (specCreateTable t)) as [e|]; cbn [fst app].
    + constructor; [exists t, None; split; [left; reflexivity | auto]|].
      constructor; [exists t, (Some e); split; [left; reflexivity | auto]|]. constructor.
    + constructor; [exists t, None; split; [left; reflexivity | auto]|].
      constructor; [exists t, None; split; [left; reflexivity | auto]|]. exact Hrest.
Qed.

(** Once the tables before [t] are in place and the drop of [t] is
    accepted, the create statement of [t] is executed. *)
Lemma createSchema_reaches (env : Env) (conn : Conn) (pre post : list Table) (t : Table)
    (evsPre : list Event) :
  createSchema env conn pre = (evsPre, Ok tt) ->
  envExec env conn (dropTableSQL (Table.Name t)) = None ->
  exists tail,
    fst (createSchema env conn (pre ++ t :: post)) =
      evsPre
      ++ [EvExec conn (dropTableSQL (Table.Name t)) None;
          EvExec conn (specCreateTable t) (envExec env conn (specCreateTable t))]
      ++ tail.
Proof.
  revert evsPre; induction pre as [|t0 pre IH]; intros evsPre Hpre Hd.
  - cbn in Hpre. unfold ret in Hpre. injection Hpre as <-.
    cbn [app]. rewrite createSchema_cons, createTable_run, Hd, createTableSQL_closed_form.
    destruct (envExec env conn (specCreateTable t)) as [e|]; cbn [fst].
    + exists []. reflexivity.
    + eexists. reflexivity.
  - cbn [createSchema] in Hpre. apply bind_ok_inv in Hpre.
    destruct Hpre as (e1 & [] & e2 & H1 & H2 & ->).
    destruct (IH _ H2 Hd) as [tail Htail].
    cbn [app]. rewrite createSchema_cons, H1. cbn [fst]. rewrite Htail.
    exists tail. now rewrite <- app_assoc.
Qed.

(** C5: the create statement is [CREATE TABLE], the delimited table
    name, and the clauses of the columns in snapshot order, separated by
    commas: each clause is the delimited column name, the column type,
    [NOT NULL] exactly when the nullability flag is ["NO"] (which it is
    exactly when the catalog reported the column as not null), and
    [DEFAULT] with the expression exactly when there is one.  Names are
    put between double quotes as they are.  This is what [createSchema]
    sends: a schema phase that succeeds has executed, for every table in
    snapshot order, the drop statement and then this statement; whatever
    the destination answers it sends nothing but such statements of
    snapshot tables; and every table it reaches whose drop is accepted
    gets this statement executed. *)
Theorem create_table_statement (env : Env) (conn : Conn) (t : Table) :
  createTableSQL t =
    ("CREATE TABLE " ++ dquote ++ Table.Name t ++ dquote ++ " ("
     ++ joinStrings (map specColumnClause (Table.Columns t)) ", "
     ++ specPrimaryKeyClause (Table.PrimaryKey t) ++ ")")%string
  /\ (forall c,
        specColumnClause c =
          (dquote ++ Column.Name c ++ dquote ++ " " ++ Column.DataType c
           ++ (if (Column.IsNullable c =? "NO")%string then " NOT NULL" else EmptyString)
           ++ match Column.Default c with
              | Some d => " DEFAULT " ++ d
              | None => EmptyString
              end)%string)
  /\ (forall name ty notNull d,
        (Column.IsNullable (Column.mk name ty (nullableFlag notNull) d) =? "NO")%string
        = notNull)
  /\ (envExec env conn (dropTableSQL (Table.Name t)) = None ->
      fst (createTable env conn t) =
        [EvExec conn (dropTableSQL (Table.Name t)) None;
         EvExec conn (createTableSQL t) (envExec env conn (createTableSQL t))])
  /\ (forall t',
        specCreateTable t' =
          ("CREATE TABLE " ++ dquote ++ Table.Name t' ++ dquote ++ " ("
           ++ joinStrings (map specColumnClause (Table.Columns t')) ", "
           ++ specPrimaryKeyClause (Table.PrimaryKey t') ++ ")")%string)
  /\ (forall tables evs,
        createSchema env conn tables = (evs, Ok tt) ->
        evs = flat_map (fun t' => [EvExec conn (dropTableSQL (Table.Name t')) None;
                                   EvExec conn (specCreateTable t') None]) tables)
  /\ (forall tables,
        Forall (fun ev => exists t' r,
                  In t' tables /\
                  (ev = EvExec conn (dropTableSQL (Table.Name t')) r \/
                   ev = EvExec conn (specCreateTable t') r))
               (fst (createSchema env conn tables)))
  /\ (forall pre post evsPre,
        createSchema env conn pre = (evsPre, Ok tt) ->
        envExec env conn (dropTableSQL (Table.Name t)) = None ->
        exists tail,
          fst (createSchema env conn (pre ++ t :: post)) =
            evsPre
            ++ [EvExec conn (dropTableSQL (Table.Name t)) None;
                EvExec conn (specCreateTable t) (envExec env conn (specCreateTable t))]
            ++ tail).
Proof.
  split; [|split; [|split; [|split; [|split; [|split; [|split]]]]]].
  - rewrite createTableSQL_closed_form. unfold specCreateTable, quoteIdent.
    now rewrite !append_assoc.
  - intros c. unfold specColumnClause, quoteIdent. now rewrite !append_assoc.
  - intros name ty notNull d. apply nullableFlag_NO.
  - intros H. rewrite createTable_run, H. reflexivity.
  - intros t'. unfold specCreateTable, quoteIdent. now rewrite !append_assoc.
  - intros tables evs H. rewrite (createSchema_ok env conn tables evs H).
    apply schemaEvents_closed.
  - intros tables. apply createSchema_calls.
  - intros pre post evsPre Hpre Hd. exact (createSchema_reaches env conn pre post t evsPre Hpre Hd).
Qed.

(** The statements of the schema phase of the sample run. *)
Lemma create_table_statement_witness :
  fst (createTable sampleEnv Dest sampleUsers) =
    [EvExec Dest (dropTableSQL "users") None;
     EvExec Dest (createTableSQL sampleUsers) None]
  /\ fst (createSchema sampleEnv Dest sampleTables) =
       [EvExec Dest (dropTableSQL "audit") None;
        EvExec Dest (specCreateTable sampleAudit) None;
        EvExec Dest (dropTableSQL "users") None;
        EvExec Dest (specCreateTable sampleUsers) None;
        EvExec Dest (dropTableSQL "events") None;
        EvExec Dest (specCreateTable sampleEvents) None].
Proof.
  split.
  - apply (proj1 (proj2 (proj2 (proj2
             (create_table_statement sampleEnv Dest sampleUsers))))).
    reflexivity.
  - apply (proj1 (proj2 (proj2 (proj2 (proj2 (proj2
             (create_table_statement sampleEnv Dest sampleUsers)))))) sampleTables).
    vm_compute. reflexivity.
Defined.

(** C6: a table with a key gets one [PRIMARY KEY] clause after the
    columns, listing the delimited key columns in the order of
    [t.PrimaryKey]; a table without key gets none, and its creation
    succeeds whenever the destination accepts the two statements; the
    key of every table of an introspected snapshot is the list of rows
    of the key query for that table, in the order delivered.  The
    statement with this clause is the one executed: a schema phase that
    succeeds has executed it for every table in snapshot order, and in a
    run whose schema phase succeeds the destination has been sent, for
    every table, the create statement whose key clause lists the rows of
    the key query of that table. *)
Theorem primary_key_clause (env : Env) (conn : Conn) (t : Table) :
  (Table.PrimaryKey t <> [] ->
   createTableSQL t =
     ("CREATE TABLE " ++ dquote ++ Table.Name t ++ dquote ++ " ("
      ++ joinStrings (map specColumnClause (Table.Columns t)) ", "
      ++ ", PRIMARY KEY ("
      ++ joinStrings (map quoteIdent (Table.PrimaryKey t)) ", " ++ ")" ++ ")")%string)
  /\ (Table.PrimaryKey t = [] ->
      createTableSQL t =
        ("CREATE TABLE " ++ dquote ++ Table.Name t ++ dquote ++ " ("
         ++ joinStrings (map specColumnClause (Table.Columns t)) ", " ++ ")")%string
      /\ (envExec env conn (dropTableSQL (Table.Name t)) = None ->
          envExec env conn (createTableSQL t) = None ->
          snd (createTable env conn t) = Ok tt))
  /\ (forall tables evs,
        introspectSchema env conn = (evs, Ok tables) ->
        Forall (fun t' => exists rows fl,
                  envQuery env conn listPrimaryKeySQL [Table.Name t'] = Ok (rows, fl) /\
                  rows = map (fun k => [VText k]) (Table.PrimaryKey t'))
               tables)
  /\ (forall pk,
        specPrimaryKeyClause pk =
          match pk with
          | [] => EmptyString
          | _ :: _ =>
              (", PRIMARY KEY (" ++ joinStrings (map quoteIdent pk) ", " ++ ")")%string
          end)
  /\ (forall tables evs,
        createSchema env conn tables = (evs, Ok tt) ->
        evs = flat_map
                (fun t' =>
                   [EvExec conn (dropTableSQL (Table.Name t')) None;
                    EvExec conn
                      ("CREATE TABLE " ++ dquote ++ Table.Name t' ++ dquote ++ " ("
                       ++ joinStrings (map specColumnClause (Table.Columns t')) ", "
                       ++ specPrimaryKeyClause (Table.PrimaryKey t') ++ ")")%string
                      None])
                tables)
  /\ (envExec env conn (dropTableSQL (Table.Name t)) = None ->
      fst (createTable env conn t) =
        [EvExec conn (dropTableSQL (Table.Name t)) None;
         EvExec conn
           ("CREATE TABLE " ++ dquote ++ Table.Name t ++ dquote ++ " ("
            ++ joinStrings (map specColumnClause (Table.Columns t)) ", "
            ++ specPrimaryKeyClause (Table.PrimaryKey t) ++ ")")%string
           (envExec env conn (createTableSQL t))])
  /\ (forall tables evsI evsS,
        introspectSchema env Source = (evsI, Ok tables) ->
        createSchema env Dest tables = (evsS, Ok tt) ->
        Forall (fun t' => exists keys fl,
                  envQuery env Source listPrimaryKeySQL [Table.Name t'] =
                    Ok (map (fun k => [VText k]) keys, fl) /\
                  In (EvExec Dest
                        ("CREATE TABLE " ++ dquote ++ Table.Name t' ++ dquote ++ " ("
                         ++ joinStrings (map specColumnClause (Table.Columns t')) ", "
                         ++ specPrimaryKeyClause keys ++ ")")%string
                        None)
                     (fst (migrate env Source Dest)))
               tables).
Proof.
  assert (Hclosed : forall t',
    createTableSQL t' =
      ("CREATE TABLE " ++ dquote ++ Table.Name t' ++ dquote ++ " ("
       ++ joinStrings (map specColumnClause (Table.Columns t')) ", "
       ++ specPrimaryKeyClause (Table.PrimaryKey t') ++ ")")%string).
  { intros t'. rewrite createTableSQL_closed_form. unfold specCreateTable, quoteIdent.
    now rewrite !append_assoc. }
  assert (Hkeys : forall tables evs,
    introspectSchema env Source = (evs, Ok tables) ->
    Forall (fun t' => exists rows fl,
              envQuery env Source listPrimaryKeySQL [Table.Name t'] = Ok (rows, fl) /\
              rows = map (fun k => [VText k]) (Table.PrimaryKey t')) tables).
  { intros tables evs H. apply introspectSchema_ok in H.
    destruct H as [names HF]. clear - HF.
    induction HF as [|n t' names tables [e He] _ IH]; constructor; [|exact IH].
    apply introspectTable_ok in He.
    destruct He as (crows & cfl & prows & pfl & _ & _ & Hq & Hs & Hn & _).
    cbn [Table.Name Table.PrimaryKey] in Hq, Hs.
    apply scanPrimaryKey_spec in Hs. destruct Hs as (keys & -> & Hk).
    cbn [app] in Hk. rewrite Hn, Hk. exists (map (fun k => [VText k]) keys), pfl.
    split; [exact Hq | reflexivity]. }
  split; [|split; [|split; [|split; [|split; [|split]]]]].
  - intros Hpk. rewrite createTableSQL_closed_form.
    unfold specCreateTable, specPrimaryKeyClause, quoteIdent.
    destruct (Table.PrimaryKey t); [contradiction|].
    now rewrite !append_assoc.
  - intros Hpk. split.
    + rewrite createTableSQL_closed_form.
      unfold specCreateTable, specPrimaryKeyClause, quoteIdent.
      rewrite Hpk. now rewrite !append_assoc.
    + intros Hd Hc. rewrite createTable_run, Hd, Hc. reflexivity.
  - intros tables evs H. apply introspectSchema_ok in H.
    destruct H as [names HF]. clear - HF.
    induction HF as [|n t' names tables [e He] _ IH]; constructor; [|exact IH].
    apply introspectTable_ok in He.
    destruct He as (crows & cfl & prows & pfl & _ & _ & Hq & Hs & Hn & _).
    cbn [Table.Name Table.PrimaryKey] in Hq, Hs.
    apply scanPrimaryKey_spec in Hs. destruct Hs as (keys & -> & Hk).
    cbn [app] in Hk. rewrite Hn, Hk. exists (map (fun k => [VText k]) keys), pfl.
    split; [exact Hq | reflexivity].
  - intros pk. destruct pk; reflexivity.
  - intros tables evs H. rewrite (createSchema_ok env conn tables evs H).
    unfold schemaEvents. clear H. induction tables as [|t' rest IH]; [reflexivity|].
    cbn [flat_map]. rewrite IH, Hclosed. reflexivity.
  - intros H. rewrite createTable_run, H. cbn [fst]. rewrite Hclosed at 1. reflexivity.
  - intros tables evsI evsS HI HS.
    pose proof (Hkeys tables evsI HI) as HK.
    rewrite (migrate_events env tables evsI evsS HI HS).
    apply createSchema_ok in HS. subst evsS.
    rewrite Forall_forall in HK. apply Forall_forall. intros t' Hin.
    destruct (HK t' Hin) as (rows & fl & Hq & ->).
    exists (Table.PrimaryKey t'), fl. split; [exact Hq|].
    apply in_or_app; right. apply in_or_app; left.
    rewrite <- Hclosed. unfold schemaEvents. apply in_flat_map.
    exists t'. split; [exact Hin | right; left; reflexivity].
Qed.

(** [events] has a two-column key; [audit] has none. *)
Lemma primary_key_clause_witness :
  createTableSQL sampleEvents =
    ("CREATE TABLE " ++ dquote ++ "events" ++ dquote ++ " ("
     ++ joinStrings (map specColumnClause (Table.Columns sampleEvents)) ", "
     ++ ", PRIMARY KEY (" ++ joinStrings (map quoteIdent ["at"; "user_id"]) ", "
     ++ ")" ++ ")")%string
  /\ snd (createTable sampleEnv Dest sampleAudit) = Ok tt
  /\ Forall (fun t' => exists rows fl,
               envQuery sampleEnv Source listPrimaryKeySQL [Table.Name t'] = Ok (rows, fl) /\
               rows = map (fun k => [VText k]) (Table.PrimaryKey t'))
            sampleTables
  /\ Forall (fun t' => exists keys fl,
               envQuery sampleEnv Source listPrimaryKeySQL [Table.Name t'] =
                 Ok (map (fun k => [VText k]) keys, fl) /\
               In (EvExec Dest
                     ("CREATE TABLE " ++ dquote ++ Table.Name t' ++ dquote ++ " ("
                      ++ joinStrings (map specColumnClause (Table.Columns t')) ", "
                      ++ specPrimaryKeyClause keys ++ ")")%string
                     None)
                  (fst (migrate sampleEnv Source Dest)))
            sampleTables.
Proof.
  split; [|split; [|split]].
  - apply (proj1 (primary_key_clause sampleEnv Dest sampleEvents)). discriminate.
  - apply (proj2 (proj1 (proj2 (primary_key_clause sampleEnv Dest sampleAudit)) eq_refl));
      reflexivity.
  - apply (proj1 (proj2 (proj2 (primary_key_clause sampleEnv Source sampleAudit)))
             sampleTables (fst (introspectSchema sampleEnv Source))).
    vm_compute. reflexivity.
  - apply (proj2 (proj2 (proj2 (proj2 (proj2 (proj2
             (primary_key_clause sampleEnv Dest sampleAudit))))))
             sampleTables (fst (introspectSchema sampleEnv Source))
             (fst (createSchema sampleEnv Dest sampleTables))).
    + vm_compute. reflexivity.
    + vm_compute. reflexivity.
Defined.

(** ** A failed copy and what it leaves *)

(** The calls of a step that fails change the rows of no table: a
    failed step has loaded nothing. *)
Lemma copyTable_fail_rows (env : Env) (T : Table) (evsT : list Event) (msg : error)
    (name : string) (parents : list string) (rows0 : list Row) :
  copyTable env Source Dest T = (evsT, Fail msg) ->
  tableRows Dest name parents evsT rows0 = rows0.
Proof.
  intros HT.
  destruct (copyTable_fail_inv env T evsT msg HT)
    as [(e & _ & ->) | [(e & _ & _ & ->) | (e & pushed & rows & fl & k & _ & _ & _ & ->)]];
    reflexivity.
Qed.

(** C7: when the tables before [T] are copied and the copy of [T]
    fails, [copyData] returns the error of [T], whose message names [T]
    and tells which of the count, the opening of the cursor or the bulk
    load failed; [migrate] returns it prefixed with the name of the
    phase; the log ends with the failing call, made once: nothing is
    retried, no later table is attempted, and nothing made before is
    undone, so the rows of every table stay as they were before the
    step of [T].  The rows handed to the bulk load of [T] before it
    failed are not among them: the table is loaded by one statement,
    which fails as a whole. *)
Theorem failure_isolation (env : Env) (pre post : list Table) (T : Table)
    (evsI evsS evsPre evsT : list Event) (msg : error) :
  introspectSchema env Source = (evsI, Ok (pre ++ T :: post)) ->
  createSchema env Dest (pre ++ T :: post) = (evsS, Ok tt) ->
  copyData env Source Dest pre = (evsPre, Ok tt) ->
  copyTable env Source Dest T = (evsT, Fail msg) ->
  copyData env Source Dest (pre ++ T :: post) = (evsPre ++ evsT, Fail msg)
  /\ migrate env Source Dest =
       (evsI ++ evsS ++ evsPre ++ evsT, Fail ("failed to copy data: " ++ msg)%string)
  /\ ((exists e,
         msg = ("failed to get count for table " ++ Table.Name T ++ ": " ++ e)%string /\
         evsT = [EvQueryRow Source (countSQL (Table.Name T))])
      \/ (exists e,
            msg = ("failed to query rows from " ++ Table.Name T ++ ": " ++ e)%string /\
            evsT = [EvQueryRow Source (countSQL (Table.Name T));
                    EvQuery Source (selectSQL T) []])
      \/ (exists e pushed rows fl k,
            msg = ("failed to copy data for table " ++ Table.Name T ++ ": " ++ e)%string /\
            envQuery env Source (selectSQL T) [] = Ok (rows, fl) /\
            pushed = firstn k rows /\
            evsT = [EvQueryRow Source (countSQL (Table.Name T));
                    EvQuery Source (selectSQL T) [];
                    EvCopyFrom Dest [Table.Name T] (map Column.Name (Table.Columns T))
                      pushed (Some e)]))
  /\ (forall name parents rows0,
        tableRows Dest name parents (evsPre ++ evsT) rows0 =
        tableRows Dest name parents evsPre rows0)
  /\ (forall name parents init,
        tableRows Dest name parents (fst (migrate env Source Dest)) init =
        tableRows Dest name parents (evsI ++ evsS ++ evsPre) init)
  /\ (forall t b,
        tableCreated Dest t (fst (migrate env Source Dest)) b =
        tableCreated Dest t (evsI ++ evsS) b).
Proof.
  intros HI HS Hpre HT.
  pose proof (copyData_app_fail env pre post T evsPre evsT msg Hpre HT) as Hall.
  assert (HM : migrate env Source Dest =
               (evsI ++ evsS ++ evsPre ++ evsT,
                Fail ("failed to copy data: " ++ msg)%string)).
  { rewrite (migrate_run env _ evsI HI), HS, Hall. reflexivity. }
  assert (HneT : forallb (fun ev => negb (isExec ev)) evsT = true).
  { pose proof (copyTable_no_exec env Source Dest T) as Hx. rewrite HT in Hx. exact Hx. }
  split; [exact Hall|]. split; [exact HM|]. split; [|split; [|split]].
  - destruct (copyTable_fail_inv env T evsT msg HT)
      as [(e & Hm & He) | [(e & Hm & _ & He) | (e & pushed & rows & fl & k & Hm & Hq & Hp & He)]].
    + left. exists e. auto.
    + right; left. exists e. auto.
    + right; right. exists e, pushed, rows, fl, k. auto.
  - intros name parents rows0. rewrite tableRows_app_r by exact HneT.
    exact (copyTable_fail_rows env T evsT msg name _ _ HT).
  - intros name parents init. rewrite HM. cbn [fst].
    rewrite !app_assoc. rewrite tableRows_app_r by exact HneT.
    exact (copyTable_fail_rows env T evsT msg name _ _ HT).
  - intros t b. rewrite HM. cbn [fst].
    replace (evsI ++ evsS ++ evsPre ++ evsT) with ((evsI ++ evsS) ++ (evsPre ++ evsT))
      by (now rewrite <- !app_assoc).
    rewrite tableCreated_app. apply tableCreated_no_exec.
    pose proof (copyData_no_exec env Source Dest (pre ++ T :: post)) as Hne.
    rewrite Hall in Hne. exact Hne.
Qed.

(** The destination rejects the third row of [users]: the run stops
    there, [events] is never read, and [users] is as the schema phase
    left it. *)
Lemma failure_isolation_witness :
  migrate rejectingEnv Source Dest =
    (fst (introspectSchema rejectingEnv Source)
       ++ fst (createSchema rejectingEnv Dest sampleTables)
       ++ fst (copyData rejectingEnv Source Dest [sampleAudit])
       ++ fst (copyTable rejectingEnv Source Dest sampleUsers),
     Fail ("failed to copy data: "
           ++ "failed to copy data for table users: "
           ++ "duplicate key value violates unique constraint")%string).
Proof.
  assert (HI : introspectSchema rejectingEnv Source =
               (fst (introspectSchema rejectingEnv Source),
                Ok ([sampleAudit] ++ sampleUsers :: [sampleEvents])))
    by (vm_compute; reflexivity).
  assert (HS : createSchema rejectingEnv Dest ([sampleAudit] ++ sampleUsers :: [sampleEvents]) =
               (fst (createSchema rejectingEnv Dest sampleTables), Ok tt))
    by (vm_compute; reflexivity).
  assert (Hpre : copyData rejectingEnv Source Dest [sampleAudit] =
                 (fst (copyData rejectingEnv Source Dest [sampleAudit]), Ok tt))
    by (vm_compute; reflexivity).
  assert (HT : copyTable rejectingEnv Source Dest sampleUsers =
               (fst (copyTable rejectingEnv Source Dest sampleUsers),
                Fail ("failed to copy data for table users: "
                      ++ "duplicate key value violates unique constraint")%string))
    by (vm_compute; reflexivity).
  exact (proj1 (proj2 (failure_isolation rejectingEnv [sampleAudit] [sampleEvents]
                         sampleUsers _ _ _ _ _ HI HS Hpre HT))).
Defined.

(** Two rows of [users] had been handed to the bulk load when the third
    was rejected; none of them is in the table afterwards. *)
Lemma pushed_rows_not_retained :
  In (EvCopyFrom Dest ["users"%string] ["id"%string; "name"%string; "note"%string]
        (firstn 2 sampleUsersRows)
        (Some "duplicate key value violates unique constraint"%string))
     (fst (migrate rejectingEnv Source Dest))
  /\ tableRows Dest "users" [] (fst (migrate rejectingEnv Source Dest)) [] = []
  /\ tableRows Dest "users" [] (fst (migrate rejectingEnv Source Dest)) []
     <> firstn 2 sampleUsersRows.
Proof.
  split; [|split].
  - vm_compute. do 16 right. left. reflexivity.
  - vm_compute. reflexivity.
  - vm_compute. discriminate.
Qed.

(** ** A table lost to a broken list *)

(** C1: the query of the list of tables is cancelled after the row of
    [audit].  The source still holds [users] with its three rows, as
    its count and its select say, but [introspectSchema] takes the end
    of the stream for the end of the list: the snapshot is [audit]
    alone, [migrate] returns without error, and [users] has been
    neither created nor loaded on the destination, which holds for
    [users] what it held before the run. *)
Theorem truncated_table_list_loses_table :
  envQuery truncatedListEnv Source listTablesSQL [] =
    Ok ([[VText "audit"%string]],
        Some "ERROR: canceling statement due to statement timeout (SQLSTATE 57014)"%string)
  /\ envQueryRow truncatedListEnv Source (countSQL "users") = Ok [VInt 3]
  /\ envQuery truncatedListEnv Source (selectSQL sampleUsers) [] =
       Ok (sampleUsersRows, None)
  /\ snd (introspectSchema truncatedListEnv Source) = Ok [sampleAudit]
  /\ migrate truncatedListEnv Source Dest =
       (catalogQueries Source ["audit"%string]
          ++ schemaEvents Dest [sampleAudit]
          ++ [EvQueryRow Source (countSQL "audit")],
        Ok tt)
  /\ (forall init,
        tableRows Dest "users" [] (fst (migrate truncatedListEnv Source Dest)) init
        = init)
  /\ tableRows Dest "users" [] (fst (migrate truncatedListEnv Source Dest)) []
     <> sampleUsersRows
  /\ tableCreated Dest sampleUsers (fst (migrate truncatedListEnv Source Dest)) false
     = false.
Proof.
  split; [vm_compute; reflexivity|]. split; [vm_compute; reflexivity|].
  split; [vm_compute; reflexivity|]. split; [vm_compute; reflexivity|].
  split; [vm_compute; reflexivity|].
  split; [intros init; vm_compute; reflexivity|].
  split; [vm_compute; intros H; discriminate H | vm_compute; reflexivity].
Qed.

(** * Further properties *)

(** ** Helpers *)

Local Open Scope string_scope.

(** X1: [joinStrings] is the standard join: nothing for no string, the
    string itself for one, and the separator between neighbours, never
    before the first or after the last. *)
Theorem joinStrings_is_concat (strs : list string) (sep : string) :
  joinStrings strs sep = String.concat sep strs.
Proof.
  induction strs as [|x [|y rest] IH].
  - reflexivity.
  - reflexivity.
  - rewrite joinStrings_cons, IH. reflexivity.
Qed.

(** ** More on the sanitizer *)

(** The four ways a column leaves the sanitizer. *)
Lemma sanitize_cases (c : Column) :
  sanitize c = c
  \/ (exists d, Column.Default c = Some d /\ isPrivateDefault d = true /\
        sanitize c = Column.mk (Column.Name c) (Column.DataType c)
                       (Column.IsNullable c) None)
  \/ (exists d, Column.Default c = Some d /\ isPrivateDefault d = false /\
        contains d "nextval(" = true /\
        ((isIntegerType (Column.DataType c) = true /\
          sanitize c = Column.mk (Column.Name c) "SERIAL" (Column.IsNullable c) None)
         \/ (isIntegerType (Column.DataType c) = false /\
             isBigintType (Column.DataType c) = true /\
             sanitize c = Column.mk (Column.Name c) "BIGSERIAL"
                            (Column.IsNullable c) None))).
Proof.
  unfold sanitize.
  destruct (Column.Default c) as [d|] eqn:Hd.
  - destruct (isPrivateDefault d) eqn:Hp.
    + right; left. exists d. rewrite (stripPrivateDefault_private c d Hd Hp).
      split; [reflexivity|]. split; [exact Hp | reflexivity].
    + assert (Hs : stripPrivateDefault c = c).
      { apply stripPrivateDefault_other. intros d' Hd'. congruence. }
      rewrite Hs. unfold rewriteSequence. rewrite Hd.
      destruct (contains d "nextval(") eqn:Hseq; [|left; reflexivity].
      destruct (isIntegerType (Column.DataType c)) eqn:Hi.
      * right; right. exists d.
        split; [reflexivity|]. split; [exact Hp|]. split; [exact Hseq|].
        left. split; reflexivity.
      * destruct (isBigintType (Column.DataType c)) eqn:Hb; [|left; reflexivity].
        right; right. exists d.
        split; [reflexivity|]. split; [exact Hp|]. split; [exact Hseq|].
        right. repeat split.
  - left. rewrite stripPrivateDefault_other by (intros d H; congruence).
    apply rewriteSequence_no_default, Hd.
Qed.

Lemma sanitize_no_default (c : Column) :
  Column.Default c = None -> sanitize c = c.
Proof.
  intros Hd. unfold sanitize.
  rewrite stripPrivateDefault_other by (intros d H; congruence).
  apply rewriteSequence_no_default, Hd.
Qed.

(** X2: sanitizing twice changes nothing more. *)
Theorem sanitize_idempotent (c : Column) : sanitize (sanitize c) = sanitize c.
Proof.
  destruct (sanitize_cases c) as [H | [(d & _ & _ & H) | (d & _ & _ & _ & [[_ H] | (_ & _ & H)])]].
  - rewrite H. exact H.
  - rewrite H. apply sanitize_no_default. reflexivity.
  - rewrite H. apply sanitize_no_default. reflexivity.
  - rewrite H. apply sanitize_no_default. reflexivity.
Qed.

(** X3: a default that is still there after the sanitizer is the one
    the catalog reported, it mentions neither the private schema nor a
    private cast, it is a sequence call only on a column that is neither
    of integer nor of big-integer type, and the column is untouched. *)
Theorem surviving_default_is_clean (c : Column) (d : string) :
  Column.Default (sanitize c) = Some d ->
  Column.Default c = Some d
  /\ ~ occurs "xata_private" d
  /\ ~ occurs "::xata_" d
  /\ (occurs "nextval(" d ->
      isIntegerType (Column.DataType c) = false /\
      isBigintType (Column.DataType c) = false)
  /\ sanitize c = c.
Proof.
  intros H.
  destruct (sanitize_cases c) as [E | [(d' & _ & _ & E) | (d' & _ & _ & _ & [[_ E] | (_ & _ & E)])]];
    try (rewrite E in H; discriminate H).
  rewrite E in H. split; [exact H|].
  assert (Hp : isPrivateDefault d = false).
  { destruct (isPrivateDefault d) eqn:Hp; [|reflexivity].
    pose proof (stripPrivateDefault_private c d H Hp) as Hs.
    unfold sanitize in E. rewrite Hs in E. cbn in E.
    rewrite <- E in H. discriminate H. }
  assert (Hnot : ~ (occurs "xata_private" d \/ occurs "::xata_" d)).
  { intros Ho. apply isPrivateDefault_spec in Ho. congruence. }
  repeat split; try tauto.
  - unfold sanitize in E.
    rewrite stripPrivateDefault_other in E by (intros d' Hd'; congruence).
    unfold rewriteSequence in E. rewrite H in E.
    apply contains_spec in H0. rewrite H0 in E.
    destruct (isIntegerType (Column.DataType c)); [|reflexivity].
    rewrite <- E in H. discriminate H.
  - unfold sanitize in E.
    rewrite stripPrivateDefault_other in E by (intros d' Hd'; congruence).
    unfold rewriteSequence in E. rewrite H in E.
    apply contains_spec in H0. rewrite H0 in E.
    destruct (isIntegerType (Column.DataType c)); [rewrite <- E in H; discriminate H|].
    destruct (isBigintType (Column.DataType c)); [|reflexivity].
    rewrite <- E in H. discriminate H.
Qed.

(** A plain default is kept. *)
Lemma surviving_default_is_clean_witness :
  sanitize (Column.mk "role" "text" "NO" (Some "'guest'::text")) =
  Column.mk "role" "text" "NO" (Some "'guest'::text").
Proof.
  apply (surviving_default_is_clean
           (Column.mk "role" "text" "NO" (Some "'guest'::text")) "'guest'::text").
  reflexivity.
Defined.

(** X4: the sanitizer changes a type only into [SERIAL] or [BIGSERIAL],
    and only for a sequence default that rule 1 has kept, which it
    removes; a column whose default rule 1 discards, or that has no
    default, keeps its type, sequence or not. *)
Theorem type_rewritten_only_for_sequence (c : Column) :
  Column.DataType (sanitize c) <> Column.DataType c ->
  (Column.DataType (sanitize c) = "SERIAL" \/
   Column.DataType (sanitize c) = "BIGSERIAL")
  /\ Column.Default (sanitize c) = None
  /\ exists d,
       Column.Default c = Some d /\ occurs "nextval(" d /\
       ~ occurs "xata_private" d /\ ~ occurs "::xata_" d.
Proof.
  intros Hne.
  destruct (sanitize_cases c)
    as [E | [(d & _ & _ & E) | (d & Hd & Hp & Hseq & [[_ E] | (_ & _ & E)])]].
  - rewrite E in Hne. contradiction.
  - rewrite E in Hne. contradiction.
  - rewrite E. cbn. split; [left; reflexivity|]. split; [reflexivity|].
    exists d. apply contains_spec in Hseq.
    assert (Hnot : ~ (occurs "xata_private" d \/ occurs "::xata_" d))
      by (intros Ho; apply isPrivateDefault_spec in Ho; congruence).
    tauto.
  - rewrite E. cbn. split; [right; reflexivity|]. split; [reflexivity|].
    exists d. apply contains_spec in Hseq.
    assert (Hnot : ~ (occurs "xata_private" d \/ occurs "::xata_" d))
      by (intros Ho; apply isPrivateDefault_spec in Ho; congruence).
    tauto.
Qed.

(** A big-integer sequence column. *)
Lemma type_rewritten_only_for_sequence_witness :
  Column.DataType
    (sanitize (Column.mk "id" "bigint" "NO" (Some "nextval('t_id_seq'::regclass)")))
    = "BIGSERIAL"
  /\ Column.Default
       (sanitize (Column.mk "id" "bigint" "NO" (Some "nextval('t_id_seq'::regclass)")))
     = None.
Proof.
  destruct (type_rewritten_only_for_sequence
              (Column.mk "id" "bigint" "NO" (Some "nextval('t_id_seq'::regclass)")))
    as (Hty & Hdef & _).
  - vm_compute. discriminate.
  - split; [|exact Hdef]. reflexivity.
Defined.

(** ** More on introspection *)

Local Open Scope list_scope.

Lemma bind_fail_inv {A B} (m : Run A) (k : A -> Run B) (evs : list Event) (e : error) :
  bind m k = (evs, Fail e) ->
  m = (evs, Fail e)
  \/ exists e1 a e2, m = (e1, Ok a) /\ k a = (e2, Fail e) /\ evs = e1 ++ e2.
Proof.
  unfold bind. destruct m as [e1 [a|e0]].
  - destruct (k a) as [e2 r] eqn:Hk. intros H. injection H as <- ->.
    right. exists e1, a, e2. auto.
  - intros H. injection H as <- <-. left. reflexivity.
Qed.

Lemma scanTables_rows (env : Env) (rows : list Row) (acc ts : list Table) :
  scanTables env rows acc = Ok ts ->
  exists names,
    rows = map (fun n => [VText n]) names /\
    ts = acc ++ map (fun n => Table.mk n [] []) names.
Proof.
  revert acc; induction rows as [|row rows IH]; intros acc H; cbn [scanTables] in H.
  - injection H as <-. exists []. split; [reflexivity | now rewrite app_nil_r].
  - unfold scanTableName in H.
    destruct row as [|[| | |name|] [|? ?]]; try discriminate H.
    destruct (IH _ H) as (names & -> & ->). exists (name :: names).
    split; [reflexivity | now rewrite <- app_assoc].
Qed.

Lemma scanColumns_spec (env : Env) (rows : list Row) (acc cols : list Column) :
  scanColumns env rows acc = Ok cols ->
  exists raws,
    Forall2 (fun row raw => scanColumn env row = Ok raw) rows raws /\
    cols = acc ++ map sanitize raws.
Proof.
  revert acc; induction rows as [|row rows IH]; intros acc H; cbn [scanColumns] in H.
  - injection H as <-. exists []. split; [constructor | now rewrite app_nil_r].
  - destruct (scanColumn env row) as [raw|e] eqn:Hrow; [|discriminate H].
    destruct (IH _ H) as (raws & HF & ->). exists (raw :: raws).
    split; [constructor; assumption | now rewrite <- app_assoc].
Qed.

Lemma scanColumn_fail (env : Env) (row : Row) (e : error) :
  scanColumn env row = Fail e -> e = envScanErr env row.
Proof.
  unfold scanColumn. intros H.
  repeat match type of H with
         | context [match ?x with _ => _ end] => destruct x
         end; congruence.
Qed.

Lemma scanColumns_fail (env : Env) (rows : list Row) (acc : list Column) (e : error) :
  scanColumns env rows acc = Fail e ->
  exists row, In row rows /\ e = envScanErr env row.
Proof.
  revert acc; induction rows as [|row rows IH]; intros acc H; cbn [scanColumns] in H.
  - discriminate H.
  - destruct (scanColumn env row) as [raw|e0] eqn:Hrow.
    + destruct (IH _ H) as (r & Hin & ->). exists r. split; [right; exact Hin | reflexivity].
    + injection H as <-. exists row. split; [left; reflexivity|].
      apply scanColumn_fail, Hrow.
Qed.

Lemma scanPrimaryKey_fail (env : Env) (rows : list Row) (acc : list string) (e : error) :
  scanPrimaryKey env rows acc = Fail e ->
  exists row, In row rows /\ e = envScanErr env row.
Proof.
  revert acc; induction rows as [|row rows IH]; intros acc H; cbn [scanPrimaryKey] in H.
  - discriminate H.
  - destruct row as [|[| | |k|] [|? ?]];
      try (injection H as <-; eexists; split; [left; reflexivity | reflexivity]).
    destruct (IH _ H) as (r & Hin & ->). exists r. split; [right; exact Hin | reflexivity].
Qed.

Lemma introspectTables_events (env : Env) (conn : Conn) (ts ts' : list Table)
    (evs : list Event) :
  introspectTables env conn ts = (evs, Ok ts') ->
  map Table.Name ts' = map Table.Name ts /\
  evs = flat_map (fun n => [EvQuery conn listColumnsSQL [n];
                            EvQuery conn listPrimaryKeySQL [n]])
          (map Table.Name ts).
Proof.
  revert ts' evs; induction ts as [|t ts IH]; intros ts' evs H;
    cbn [introspectTables] in H.
  - unfold ret in H. injection H as <- <-. split; reflexivity.
  - bind_inv H as t1 H1. bind_inv H as rest' H2.
    unfold ret in H. injection H as <- <-.
    apply introspectTable_ok in H1.
    destruct H1 as (_ & _ & _ & _ & _ & _ & _ & _ & Hn & ->).
    destruct (IH _ _ H2) as [Hnames ->].
    cbn [map flat_map]. rewrite Hn, Hnames, app_nil_r. split; reflexivity.
Qed.

(** X5: a successful introspection has asked the list of tables, then
    for each table, in the order of that list, its columns and its key,
    with the table name as the only query parameter; the snapshot holds
    one table per row of the list, in that order, and the columns of
    each table are the sanitized rows of its own column query, in
    order. *)
Theorem introspection_snapshot (env : Env) (conn : Conn) (tables : list Table)
    (evs : list Event) :
  introspectSchema env conn = (evs, Ok tables) ->
  evs = catalogQueries conn (map Table.Name tables)
  /\ (exists fl,
        envQuery env conn listTablesSQL [] =
          Ok (map (fun n => [VText n]) (map Table.Name tables), fl))
  /\ Forall (fun t => exists crows cfl raws,
               envQuery env conn listColumnsSQL [Table.Name t] = Ok (crows, cfl) /\
               Forall2 (fun row raw => scanColumn env row = Ok raw) crows raws /\
               Table.Columns t = map sanitize raws)
            tables.
Proof.
  intros H. pose proof H as H0. unfold introspectSchema in H.
  bind_inv H as rows H1. bind_inv H as ts H2.
  apply wrapErr_ok_inv, Query_ok_inv in H1. destruct H1 as (-> & Hq & _).
  unfold liftResult in H2. injection H2 as <- H2.
  apply scanTables_rows in H2. destruct H2 as (names & Hrows & ->). cbn [app] in H.
  destruct (introspectTables_events _ _ _ _ _ H) as [Hnames ->].
  rewrite map_map in Hnames. cbn [Table.Name] in Hnames. rewrite map_id in Hnames.
  rewrite map_map. cbn [Table.Name]. rewrite map_id.
  split; [unfold catalogQueries; rewrite Hnames; reflexivity|].
  split; [exists (failure rows); rewrite Hq, Hrows, Hnames; reflexivity|].
  apply introspectSchema_ok in H0. destruct H0 as [names' HF].
  clear - HF. induction HF as [|n t' ns tl [e He] _ IH]; constructor; [|exact IH].
  apply introspectTable_ok in He.
  destruct He as (crows & cfl & _ & _ & Hc & Hs & _ & _ & Hn & _).
  cbn [Table.Name Table.Columns] in Hc, Hs.
  apply scanColumns_spec in Hs. destruct Hs as (raws & HF2 & Hcols). cbn [app] in Hcols.
  exists crows, cfl, raws. rewrite Hn. auto.
Qed.

(** The sample catalog. *)
Lemma introspection_snapshot_witness :
  fst (introspectSchema sampleEnv Source) =
    catalogQueries Source ["audit"; "users"; "events"].
Proof.
  apply (proj1 (introspection_snapshot sampleEnv Source sampleTables
                  (fst (introspectSchema sampleEnv Source))
                  ltac:(vm_compute; reflexivity))).
Defined.

(** X6: the loops of [introspectSchema] never look at the error of a
    row stream: if a catalog query breaks off while its rows are read,
    the result is the one of the same rows delivered to the end, so a
    truncated list of tables, columns or key columns comes back as a
    success. *)
Theorem introspection_ignores_read_errors (env : Env) (conn : Conn) :
  introspectSchema (withoutReadErrors env) conn = introspectSchema env conn.
Proof.
  assert (Ht : forall t, introspectTable (withoutReadErrors env) conn t =
                         introspectTable env conn t).
  { intros t. unfold introspectTable, Query, withoutReadErrors. cbn [envQuery].
    destruct (envQuery env conn listColumnsSQL [Table.Name t]) as [[crows cfl]|e];
      [|reflexivity].
    cbn [wrapErr bind pending liftResult].
    change (scanColumns {| envQuery := _; envQueryRow := _; envExec := _;
                           envCopyRow := _; envCopyEnd := _;
                           envScanErr := envScanErr env |} crows (Table.Columns t))
      with (scanColumns env crows (Table.Columns t)).
    destruct (scanColumns env crows (Table.Columns t)) as [cols|e]; [|reflexivity].
    destruct (envQuery env conn listPrimaryKeySQL [Table.Name t]) as [[prows pfl]|e];
      reflexivity. }
  assert (Hts : forall ts, introspectTables (withoutReadErrors env) conn ts =
                           introspectTables env conn ts).
  { induction ts as [|t ts IH]; [reflexivity|].
    cbn [introspectTables]. rewrite Ht, IH. reflexivity. }
  unfold introspectSchema, Query. cbn [envQuery withoutReadErrors].
  destruct (envQuery env conn listTablesSQL []) as [[rows fl]|e]; [|reflexivity].
  cbn [wrapErr bind pending liftResult].
  change (scanTables (withoutReadErrors env) rows []) with (scanTables env rows []).
  destruct (scanTables env rows []) as [ts|e]; [|reflexivity].
  rewrite Hts. reflexivity.
Qed.

(** The four ways [introspectTable] fails. *)
Lemma introspectTable_fail_inv (env : Env) (conn : Conn) (t : Table)
    (evs : list Event) (msg : error) :
  introspectTable env conn t = (evs, Fail msg) ->
  (exists e,
     envQuery env conn listColumnsSQL [Table.Name t] = Fail e /\
     msg = ("failed to get columns for table " ++ Table.Name t ++ ": " ++ e)%string /\
     evs = [EvQuery conn listColumnsSQL [Table.Name t]])
  \/ (exists crows cfl row,
        envQuery env conn listColumnsSQL [Table.Name t] = Ok (crows, cfl) /\
        In row crows /\ msg = envScanErr env row /\
        evs = [EvQuery conn listColumnsSQL [Table.Name t]])
  \/ (exists e,
        envQuery env conn listPrimaryKeySQL [Table.Name t] = Fail e /\
        msg = ("failed to get PK for table " ++ Table.Name t ++ ": " ++ e)%string /\
        evs = [EvQuery conn listColumnsSQL [Table.Name t];
               EvQuery conn listPrimaryKeySQL [Table.Name t]])
  \/ (exists prows pfl row,
        envQuery env conn listPrimaryKeySQL [Table.Name t] = Ok (prows, pfl) /\
        In row prows /\ msg = envScanErr env row /\
        evs = [EvQuery conn listColumnsSQL [Table.Name t];
               EvQuery conn listPrimaryKeySQL [Table.Name t]]).
Proof.
  unfold introspectTable, Query, Errorf.
  destruct (envQuery env conn listColumnsSQL [Table.Name t]) as [[crows cfl]|e].
  - cbn [wrapErr bind pending liftResult].
    destruct (scanColumns env crows (Table.Columns t)) as [cols|e] eqn:Hs.
    + destruct (envQuery env conn listPrimaryKeySQL [Table.Name t]) as [[prows pfl]|e].
      * cbn [wrapErr bind pending liftResult].
        destruct (scanPrimaryKey env prows (Table.PrimaryKey t)) as [pk|e] eqn:Hp.
        -- cbn. intros H. discriminate H.
        -- cbn. intros H. injection H as <- <-.
           apply scanPrimaryKey_fail in Hp. destruct Hp as (row & Hin & ->).
           right; right; right. exists prows, pfl, row. auto.
      * cbn. intros H. injection H as <- <-. right; right; left.
        exists e. rewrite !append_assoc. auto.
    + cbn. intros H. injection H as <- <-.
      apply scanColumns_fail in Hs. destruct Hs as (row & Hin & ->).
      right; left. exists crows, cfl, row. auto.
  - cbn. intros H. injection H as <- <-. left.
    exists e. rewrite !append_assoc. auto.
Qed.

Lemma introspectTables_app_fail (env : Env) (conn : Conn) (pre post pre' : list Table)
    (t : Table) (evsPre evsT : list Event) (msg : error) :
  introspectTables env conn pre = (evsPre, Ok pre') ->
  introspectTable env conn t = (evsT, Fail msg) ->
  introspectTables env conn (pre ++ t :: post) = (evsPre ++ evsT, Fail msg).
Proof.
  revert pre' evsPre; induction pre as [|t0 pre IH]; intros pre' evsPre Hpre Ht.
  - cbn in Hpre. unfold ret in Hpre. injection Hpre as <- <-.
    cbn [app introspectTables]. unfold bind. rewrite Ht. reflexivity.
  - cbn [introspectTables] in Hpre.
    bind_inv Hpre as t1 H1. bind_inv Hpre as rest' H2.
    unfold ret in Hpre. injection Hpre as <- <-.
    cbn [app introspectTables]. unfold bind at 1. rewrite H1.
    unfold bind at 1. rewrite (IH _ _ H2 Ht).
    rewrite app_nil_r, app_assoc. reflexivity.
Qed.

(** X7: introspection stops at the first table it cannot read: the
    tables before it have been read, the tables after it are never
    asked about, and no snapshot is returned.  A failing catalog query
    is reported with the name of the table; a row that does not fit the
    variables of [Scan] is reported by the bare scan error, without the
    name of the table. *)
Theorem introspection_stops_at_first_failure (env : Env) (conn : Conn)
    (pre post pre' : list Table) (t : Table) (evsPre evsT : list Event) (msg : error) :
  introspectTables env conn pre = (evsPre, Ok pre') ->
  introspectTable env conn t = (evsT, Fail msg) ->
  introspectTables env conn (pre ++ t :: post) = (evsPre ++ evsT, Fail msg)
  /\ ((exists e,
         envQuery env conn listColumnsSQL [Table.Name t] = Fail e /\
         msg = ("failed to get columns for table " ++ Table.Name t ++ ": " ++ e)%string /\
         evsT = [EvQuery conn listColumnsSQL [Table.Name t]])
      \/ (exists crows cfl row,
            envQuery env conn listColumnsSQL [Table.Name t] = Ok (crows, cfl) /\
            In row crows /\ msg = envScanErr env row /\
            evsT = [EvQuery conn listColumnsSQL [Table.Name t]])
      \/ (exists e,
            envQuery env conn listPrimaryKeySQL [Table.Name t] = Fail e /\
            msg = ("failed to get PK for table " ++ Table.Name t ++ ": " ++ e)%string /\
            evsT = [EvQuery conn listColumnsSQL [Table.Name t];
                    EvQuery conn listPrimaryKeySQL [Table.Name t]])
      \/ (exists prows pfl row,
            envQuery env conn listPrimaryKeySQL [Table.Name t] = Ok (prows, pfl) /\
            In row prows /\ msg = envScanErr env row /\
            evsT = [EvQuery conn listColumnsSQL [Table.Name t];
                    EvQuery conn listPrimaryKeySQL [Table.Name t]])).
Proof.
  intros Hpre Ht. split.
  - exact (introspectTables_app_fail env conn pre post pre' t evsPre evsT msg Hpre Ht).
  - exact (introspectTable_fail_inv env conn t evsT msg Ht).
Qed.

(** The catalog does not answer for the columns of [users]: [audit] has
    been read, [events] is never asked about. *)
Lemma introspection_stops_at_first_failure_witness :
  introspectTables catalogFailEnv Source
    ([Table.mk "audit" [] []] ++ Table.mk "users" [] [] :: [Table.mk "events" [] []]) =
  ([EvQuery Source listColumnsSQL ["audit"];
    EvQuery Source listPrimaryKeySQL ["audit"]]
   ++ [EvQuery Source listColumnsSQL ["users"]],
   Fail "failed to get columns for table users: statement timeout"%string).
Proof.
  assert (Hpre : introspectTables catalogFailEnv Source [Table.mk "audit" [] []] =
                 ([EvQuery Source listColumnsSQL ["audit"];
                   EvQuery Source listPrimaryKeySQL ["audit"]], Ok [sampleAudit]))
    by (vm_compute; reflexivity).
  assert (Ht : introspectTable catalogFailEnv Source (Table.mk "users" [] []) =
               ([EvQuery Source listColumnsSQL ["users"]],
                Fail "failed to get columns for table users: statement timeout"%string))
    by (vm_compute; reflexivity).
  exact (proj1 (introspection_stops_at_first_failure catalogFailEnv Source
                  [Table.mk "audit" [] []] [Table.mk "events" [] []] _
                  (Table.mk "users" [] []) _ _ _ Hpre Ht)).
Defined.

(** ** More on the whole run *)

(** X8: when introspection fails, [migrate] returns its error behind
    the name of the phase, and all it has done is read the source: no
    statement has run and no row has been loaded on the destination. *)
Theorem destination_untouched_when_introspection_fails (env : Env)
    (evs : list Event) (e : error) :
  introspectSchema env Source = (evs, Fail e) ->
  migrate env Source Dest = (evs, Fail ("failed to introspect schema: " ++ e)%string)
  /\ forallb isRead evs = true
  /\ forallb (fun ev => negb (writesTo Dest ev)) evs = true.
Proof.
  intros H. split; [|split].
  - unfold migrate. rewrite H. reflexivity.
  - exact (introspectSchema_events_reads env evs _ H).
  - pose proof (introspectSchema_events_reads env evs _ H) as Hr.
    clear H. induction evs as [|ev evs IH]; [reflexivity|].
    cbn [forallb] in *. apply andb_true_iff in Hr. destruct Hr as [Hev Hr].
    rewrite (IH Hr). destruct ev; try discriminate Hev; reflexivity.
Qed.

(** The catalog failure of the sample: one list query, two queries for
    [audit], one for [users], and nothing on the destination. *)
Lemma destination_untouched_when_introspection_fails_witness :
  migrate catalogFailEnv Source Dest =
    (fst (introspectSchema catalogFailEnv Source),
     Fail ("failed to introspect schema: "
           ++ "failed to get columns for table users: statement timeout")%string).
Proof.
  apply (proj1 (destination_untouched_when_introspection_fails catalogFailEnv
                  (fst (introspectSchema catalogFailEnv Source))
                  "failed to get columns for table users: statement timeout"%string
                  ltac:(vm_compute; reflexivity))).
Defined.

(** X9: when the list of tables comes back without a row, also when the
    stream broke before its first row, [migrate] succeeds after that one
    query: nothing is created and nothing is copied. *)
Theorem empty_catalog_migrates_nothing (env : Env) (fl : option error) :
  envQuery env Source listTablesSQL [] = Ok ([], fl) ->
  migrate env Source Dest = ([EvQuery Source listTablesSQL []], Ok tt).
Proof.
  intros H. unfold migrate, introspectSchema, Query. rewrite H. reflexivity.
Qed.

(** A broken list of tables looks like an empty database. *)
Lemma empty_catalog_migrates_nothing_witness :
  migrate emptyCatalogEnv Source Dest = ([EvQuery Source listTablesSQL []], Ok tt).
Proof.
  apply (empty_catalog_migrates_nothing emptyCatalogEnv (Some "unexpected EOF"%string)).
  reflexivity.
Defined.

(** ** More on the schema phase *)

(** X10: the schema phase succeeds exactly when the destination accepts
    the drop and the create statement of every table; its log is then,
    table after table in snapshot order, the drop statement followed at
    once by the create statement, and nothing else. *)
Theorem schema_phase_log (env : Env) (conn : Conn) (tables : list Table) :
  (snd (createSchema env conn tables) = Ok tt <->
   Forall (fun t => envExec env conn (dropTableSQL (Table.Name t)) = None /\
                    envExec env conn (createTableSQL t) = None) tables)
  /\ (snd (createSchema env conn tables) = Ok tt ->
      fst (createSchema env conn tables) = schemaEvents conn tables).
Proof.
  split.
  - induction tables as [|t rest IH].
    + split; [constructor | reflexivity].
    + rewrite createSchema_cons, createTable_run.
      destruct (envExec env conn (dropTableSQL (Table.Name t))) as [e|] eqn:Hd.
      * split; [intros H; discriminate H|].
        intros H. inversion H as [|? ? [Hx _] _]; subst. congruence.
      * destruct (envExec env conn (createTableSQL t)) as [e|] eqn:Hc.
        -- split; [intros H; discriminate H|].
           intros H. inversion H as [|? ? [_ Hx] _]; subst. congruence.
        -- cbn [snd]. rewrite IH. split.
           ++ intros H. constructor; [split; assumption | exact H].
           ++ intros H. inversion H; assumption.
  - intros H. destruct (createSchema env conn tables) as [evs r] eqn:E.
    cbn [snd] in H. subst r. cbn [fst]. exact (createSchema_ok env conn tables evs E).
Qed.

Lemma createSchema_app_fail (env : Env) (conn : Conn) (pre post : list Table) (T : Table)
    (evsPre evsT : list Event) (msg : error) :
  createSchema env conn pre = (evsPre, Ok tt) ->
  createTable env conn T = (evsT, Fail msg) ->
  createSchema env conn (pre ++ T :: post) = (evsPre ++ evsT, Fail msg).
Proof.
  revert evsPre; induction pre as [|t0 pre IH]; intros evsPre Hpre HT.
  - cbn in Hpre. unfold ret in Hpre. injection Hpre as <-.
    cbn [app]. rewrite createSchema_cons, HT. reflexivity.
  - cbn [createSchema] in Hpre. apply bind_ok_inv in Hpre.
    destruct Hpre as (e1 & [] & e2 & H1 & H2 & ->).
    cbn [app]. rewrite createSchema_cons, H1, (IH _ H2 HT). cbn [fst snd].
    now rewrite app_assoc.
Qed.

(** X11: when the tables before [T] are in place and the drop or the
    create statement of [T] fails, the schema phase returns that error
    with the name of [T], [migrate] returns it behind the name of the
    phase without having read or copied a single data row, and no later
    table is attempted.  The tables before [T] stay created.  If it is
    the create statement that failed, [T] itself is gone from the
    destination: it was dropped and has not been created again. *)
Theorem schema_failure_isolation (env : Env) (pre post : list Table) (T : Table)
    (evsPre evsT : list Event) (msg : error) :
  createSchema env Dest pre = (evsPre, Ok tt) ->
  createTable env Dest T = (evsT, Fail msg) ->
  NoDup (map Table.Name (pre ++ [T])) ->
  createSchema env Dest (pre ++ T :: post) = (evsPre ++ evsT, Fail msg)
  /\ (forall evsI,
        introspectSchema env Source = (evsI, Ok (pre ++ T :: post)) ->
        migrate env Source Dest =
          (evsI ++ evsPre ++ evsT, Fail ("failed to create schema: " ++ msg)%string))
  /\ ((exists e,
         msg = ("failed to drop table " ++ Table.Name T ++ ": " ++ e)%string /\
         evsT = [EvExec Dest (dropTableSQL (Table.Name T)) (Some e)])
      \/ (exists e,
            msg = ("failed to create table " ++ Table.Name T ++ ": " ++ e)%string /\
            evsT = [EvExec Dest (dropTableSQL (Table.Name T)) None;
                    EvExec Dest (createTableSQL T) (Some e)] /\
            forall b parents rows0,
              tableCreated Dest T (evsPre ++ evsT) b = false /\
              tableRows Dest (Table.Name T) parents (evsPre ++ evsT) rows0 = []))
  /\ (forall t b, In t pre -> tableCreated Dest t (evsPre ++ evsT) b = true).
Proof.
  intros Hpre HT Hnd.
  pose proof (createSchema_app_fail env Dest pre post T evsPre evsT msg Hpre HT) as Hall.
  split; [exact Hall|]. split; [|split].
  - intros evsI HI. rewrite (migrate_run env _ evsI HI), Hall. reflexivity.
  - rewrite createTable_run in HT. unfold Errorf in HT.
    destruct (envExec env Dest (dropTableSQL (Table.Name T))) as [e|].
    + injection HT as <- <-. left. exists e. rewrite !append_assoc. auto.
    + destruct (envExec env Dest (createTableSQL T)) as [e|]; [|discriminate HT].
      injection HT as <- <-. right. exists e. rewrite !append_assoc.
      split; [reflexivity|]. split; [reflexivity|]. intros b parents rows0.
      rewrite tableCreated_app, tableRows_app_drop.
      cbn [tableCreated tableRows Conn_eqb andb]. rewrite String.eqb_refl.
      split; reflexivity.
  - intros t b Hin. rewrite tableCreated_app.
    apply createSchema_ok in Hpre. subst evsPre.
    rewrite map_app in Hnd. cbn [map] in Hnd.
    assert (Hndpre : NoDup (map Table.Name pre)).
    { apply NoDup_app_remove_r in Hnd. exact Hnd. }
    assert (Hne : Table.Name T <> Table.Name t).
    { intros E. apply NoDup_remove_2 in Hnd. apply Hnd.
      rewrite app_nil_r, E. apply in_map, Hin. }
    rewrite (schemaEvents_created Dest t pre b Hndpre Hin).
    rewrite createTable_run in HT.
    destruct (envExec env Dest (dropTableSQL (Table.Name T))) as [e|].
    + injection HT as <- _. reflexivity.
    + destruct (envExec env Dest (createTableSQL T)) as [e|]; [|discriminate HT].
      injection HT as <- _. cbn [tableCreated Conn_eqb].
      rewrite dropTableSQL_eqb.
      apply String.eqb_neq in Hne. rewrite Hne, dropTableSQL_not_create. reflexivity.
Qed.

(** The destination refuses to create [users]: [audit] stands, [users]
    is gone, [events] is never attempted, no data is read. *)
Lemma schema_failure_isolation_witness :
  migrate createFailEnv Source Dest =
    (fst (introspectSchema createFailEnv Source)
       ++ fst (createSchema createFailEnv Dest [sampleAudit])
       ++ fst (createTable createFailEnv Dest sampleUsers),
     Fail ("failed to create schema: "
           ++ "failed to create table users: permission denied for schema public")%string)
  /\ tableCreated Dest sampleAudit
       (fst (createSchema createFailEnv Dest [sampleAudit])
          ++ fst (createTable createFailEnv Dest sampleUsers)) false = true.
Proof.
  assert (Hpre : createSchema createFailEnv Dest [sampleAudit] =
                 (fst (createSchema createFailEnv Dest [sampleAudit]), Ok tt))
    by (vm_compute; reflexivity).
  assert (HT : createTable createFailEnv Dest sampleUsers =
               (fst (createTable createFailEnv Dest sampleUsers),
                Fail "failed to create table users: permission denied for schema public"%string))
    by (vm_compute; reflexivity).
  assert (Hnd : NoDup (map Table.Name ([sampleAudit] ++ [sampleUsers])))
    by (repeat constructor; cbn; intuition discriminate).
  destruct (schema_failure_isolation createFailEnv [sampleAudit] [sampleEvents]
              sampleUsers _ _ _ Hpre HT Hnd) as (_ & Hm & _ & Hc).
  split.
  - apply Hm. vm_compute. reflexivity.
  - apply Hc. left. reflexivity.
Defined.

(** X12: a schema phase that succeeds empties every table of the
    snapshot, whatever it held.  A table outside the snapshot keeps its
    rows when it descends from no table of the snapshot; when it
    descends from one, the [CASCADE] of the drop statement removes it
    along with its rows. *)
Theorem schema_phase_is_destructive (env : Env) (conn : Conn) (tables : list Table)
    (evs : list Event) :
  createSchema env conn tables = (evs, Ok tt) ->
  forall name parents init,
    (In name (map Table.Name tables) ->
     tableRows conn name parents evs init = [])
    /\ ((exists p, In p parents /\ In p (map Table.Name tables)) ->
        tableRows conn name parents evs init = [])
    /\ (~ In name (map Table.Name tables) ->
        (forall p, In p parents -> ~ In p (map Table.Name tables)) ->
        tableRows conn name parents evs init = init).
Proof.
  intros H name parents init. apply createSchema_ok in H. subst evs.
  rewrite schemaEvents_rows.
  assert (Hiff : existsb (fun t => existsb (fun m => (Table.Name t =? m)%string)
                                     (name :: parents)) tables = true <->
                 exists m, In m (name :: parents) /\ In m (map Table.Name tables)).
  { rewrite existsb_exists. split.
    - intros (t & Hin & Ht). apply existsb_exists in Ht. destruct Ht as (m & Hm & E).
      apply String.eqb_eq in E. exists m. split; [exact Hm|].
      rewrite <- E. apply in_map, Hin.
    - intros (m & Hm & Hin). apply in_map_iff in Hin. destruct Hin as (t & <- & Hin).
      exists t. split; [exact Hin|]. apply existsb_exists.
      exists (Table.Name t). split; [exact Hm | apply String.eqb_refl]. }
  destruct (existsb _ tables) eqn:E.
  - split; [reflexivity|]. split; [reflexivity|].
    intros Hn Hp. exfalso. destruct (proj1 Hiff eq_refl) as (m & [<-|Hm] & Hin).
    + exact (Hn Hin).
    + exact (Hp m Hm Hin).
  - split; [|split; [|reflexivity]].
    + intros Hin. assert (Ht : false = true); [|discriminate Ht].
      apply Hiff. exists name. split; [left; reflexivity | exact Hin].
    + intros (q & Hq & Hin). assert (Ht : false = true); [|discriminate Ht].
      apply Hiff. exists q. split; [right; exact Hq | exact Hin].
Qed.

(** [users] is emptied; a table outside the snapshot is kept, unless it
    is a partition of [users]. *)
Lemma schema_phase_is_destructive_witness :
  tableRows Dest "users" [] (fst (createSchema sampleEnv Dest sampleTables))
    [[VText "stale"]] = []
  /\ tableRows Dest "other" [] (fst (createSchema sampleEnv Dest sampleTables))
       [[VText "kept"]] = [[VText "kept"]]
  /\ tableRows Dest "users_2024" ["users"]
       (fst (createSchema sampleEnv Dest sampleTables)) [[VText "gone"]] = [].
Proof.
  assert (H : createSchema sampleEnv Dest sampleTables =
              (fst (createSchema sampleEnv Dest sampleTables), Ok tt))
    by (vm_compute; reflexivity).
  split; [|split].
  - apply (proj1 (schema_phase_is_destructive sampleEnv Dest sampleTables _ H
                    "users"%string [] [[VText "stale"%string]])).
    cbn. auto.
  - apply (proj2 (proj2 (schema_phase_is_destructive sampleEnv Dest sampleTables _ H
                    "other"%string [] [[VText "kept"%string]]))).
    + cbn. intuition discriminate.
    + intros p [].
  - apply (proj1 (proj2 (schema_phase_is_destructive sampleEnv Dest sampleTables _ H
                    "users_2024"%string ["users"%string] [[VText "gone"%string]]))).
    exists "users"%string. cbn. auto.
Defined.

(** ** More on the data phase *)

(** X13: unlike the catalog loops, the data phase does see a read error
    of the row stream: when the stream of a table breaks off, the bulk
    load is aborted, the step fails with the error the destination
    answers the abort with, behind the name of the table, and no row of
    the stream has reached the table. *)
Theorem data_stream_error_surfaces (env : Env) (t : Table) (n : Z)
    (rows : list Row) (e : error) :
  envQueryRow env Source (countSQL (Table.Name t)) = Ok [VInt n] ->
  n <> 0%Z ->
  envQuery env Source (selectSQL t) [] = Ok (rows, Some e) ->
  snd (pushAll env Dest [Table.Name t] (map Column.Name (Table.Columns t)) rows [])
    = None ->
  copyTable env Source Dest t =
    ([EvQueryRow Source (countSQL (Table.Name t));
      EvQuery Source (selectSQL t) [];
      EvCopyFrom Dest [Table.Name t] (map Column.Name (Table.Columns t)) rows
        (Some (envCopyFail env Dest [Table.Name t]
                 (map Column.Name (Table.Columns t)) rows e))],
     Fail ("failed to copy data for table " ++ Table.Name t ++ ": "
           ++ envCopyFail env Dest [Table.Name t]
                (map Column.Name (Table.Columns t)) rows e)%string)
  /\ (forall name parents rows0,
        tableRows Dest name parents (fst (copyTable env Source Dest t)) rows0 = rows0).
Proof.
  intros Hc Hn Hq Hacc.
  assert (Hrun : copyTable env Source Dest t =
    ([EvQueryRow Source (countSQL (Table.Name t));
      EvQuery Source (selectSQL t) [];
      EvCopyFrom Dest [Table.Name t] (map Column.Name (Table.Columns t)) rows
        (Some (envCopyFail env Dest [Table.Name t]
                 (map Column.Name (Table.Columns t)) rows e))],
     Fail ("failed to copy data for table " ++ Table.Name t ++ ": "
           ++ envCopyFail env Dest [Table.Name t]
                (map Column.Name (Table.Columns t)) rows e)%string)).
  { rewrite copyTable_run. cbv zeta. rewrite Hc. cbn [scanInt].
    apply Z.eqb_neq in Hn. rewrite Hn, Hq. unfold copyOutcome, Errorf.
    pose proof (pushAll_accepted env Dest [Table.Name t]
                  (map Column.Name (Table.Columns t)) rows [] Hacc) as Hall.
    destruct (pushAll env Dest [Table.Name t] (map Column.Name (Table.Columns t)) rows [])
      as [pushed err]. cbn [fst snd] in *. subst err pushed. cbn [app fst snd].
    rewrite !append_assoc. reflexivity. }
  split; [exact Hrun|]. intros name parents rows0. rewrite Hrun. reflexivity.
Qed.

(** The stream of [users] breaks after two rows. *)
Lemma data_stream_error_surfaces_witness :
  copyTable brokenStreamEnv Source Dest sampleUsers =
    ([EvQueryRow Source (countSQL "users");
      EvQuery Source (selectSQL sampleUsers) [];
      EvCopyFrom Dest ["users"] ["id"; "name"; "note"] (firstn 2 sampleUsersRows)
        (Some "ERROR: COPY from stdin failed: unexpected EOF (SQLSTATE 57014)"%string)],
     Fail ("failed to copy data for table users: "
           ++ "ERROR: COPY from stdin failed: unexpected EOF (SQLSTATE 57014)")%string)
  /\ tableRows Dest "users" []
       (fst (copyTable brokenStreamEnv Source Dest sampleUsers)) [[VText "before"]]
     = [[VText "before"]].
Proof.
  destruct (data_stream_error_surfaces brokenStreamEnv sampleUsers 3
              (firstn 2 sampleUsersRows) "unexpected EOF"%string) as [H1 H2].
  - reflexivity.
  - discriminate.
  - vm_compute. reflexivity.
  - reflexivity.
  - split; [exact H1 | apply H2].
Defined.

(** X14: the count only decides whether the table is skipped: for any
    count other than zero, right or wrong, the step opens the cursor and
    bulk-loads the rows the cursor delivers, all of them and nothing
    else, when the destination accepts them; a cursor without rows gives
    a bulk load without rows. *)
Theorem count_only_gates_the_copy (env : Env) (t : Table) (n : Z) (rows : list Row) :
  envQueryRow env Source (countSQL (Table.Name t)) = Ok [VInt n] ->
  n <> 0%Z ->
  envQuery env Source (selectSQL t) [] = Ok (rows, None) ->
  snd (pushAll env Dest [Table.Name t] (map Column.Name (Table.Columns t)) rows [])
    = None ->
  envCopyEnd env Dest [Table.Name t] (map Column.Name (Table.Columns t)) rows = None ->
  copyTable env Source Dest t =
    ([EvQueryRow Source (countSQL (Table.Name t));
      EvQuery Source (selectSQL t) [];
      EvCopyFrom Dest [Table.Name t] (map Column.Name (Table.Columns t)) rows None],
     Ok tt).
Proof.
  intros Hc Hn Hq Hacc Hend. rewrite copyTable_run. cbv zeta. rewrite Hc. cbn [scanInt].
  apply Z.eqb_neq in Hn. rewrite Hn, Hq. unfold copyOutcome.
  pose proof (pushAll_accepted env Dest [Table.Name t]
                (map Column.Name (Table.Columns t)) rows [] Hacc) as Hall.
  destruct (pushAll env Dest [Table.Name t] (map Column.Name (Table.Columns t)) rows [])
    as [pushed err]. cbn [fst snd] in *. subst err pushed. cbn [app fst snd].
  rewrite Hend. reflexivity.
Qed.

(** The count of [events] says seven, the cursor delivers two rows. *)
Lemma count_only_gates_the_copy_witness :
  copyTable brokenStreamEnv Source Dest sampleEvents =
    ([EvQueryRow Source (countSQL "events");
      EvQuery Source (selectSQL sampleEvents) [];
      EvCopyFrom Dest ["events"] ["at"; "user_id"] sampleEventsRows None],
     Ok tt).
Proof.
  apply (count_only_gates_the_copy brokenStreamEnv sampleEvents 7 sampleEventsRows).
  - reflexivity.
  - discriminate.
  - vm_compute. reflexivity.
  - reflexivity.
  - reflexivity.
Defined.

Lemma copyTable_calls (env : Env) (t : Table) :
  Forall (copyCallOf t) (fst (copyTable env Source Dest t)).
Proof.
  rewrite copyTable_run. cbv zeta. unfold copyCallOf.
  destruct (envQueryRow env Source (countSQL (Table.Name t))) as [row|e];
    [|repeat constructor].
  destruct (scanInt env row) as [n|e]; [|repeat constructor].
  destruct (n =? 0)%Z; [repeat constructor|].
  destruct (envQuery env Source (selectSQL t) []) as [[rows fl]|e]; cbn [fst].
  - constructor; [auto|]. constructor; [auto|]. constructor; [|constructor].
    right; right. eauto.
  - constructor; [auto|]. constructor; [auto | constructor].
Qed.

Lemma copyData_calls (env : Env) (tables : list Table) :
  Forall (fun ev => exists t, In t tables /\ copyCallOf t ev)
         (fst (copyData env Source Dest tables))
  /\ forallb (fun ev => negb (isExec ev) && respectsRoles ev)
       (fst (copyData env Source Dest tables)) = true.
Proof.
  assert (H : Forall (fun ev => exists t, In t tables /\ copyCallOf t ev)
                     (fst (copyData env Source Dest tables))).
  { induction tables as [|t rest IH]; [constructor|].
    destruct (copyData_fst_cons env t rest) as (tail & -> & Htail).
    apply Forall_app. split.
    - eapply Forall_impl; [|apply copyTable_calls].
      intros ev Hev. exists t. split; [left; reflexivity | exact Hev].
    - destruct Htail as [->| ->]; [constructor|].
      eapply Forall_impl; [|exact IH].
      intros ev (t' & Hin & Hev). exists t'. split; [right; exact Hin | exact Hev]. }
  split; [exact H|].
  apply forallb_forall. intros ev Hin.
  rewrite Forall_forall in H. destruct (H ev Hin) as (t & _ & Hev).
  destruct Hev as [-> | [-> | (pushed & err & ->)]]; reflexivity.
Qed.

(** X15: whatever the environment answers and however the data phase
    ends, every call it makes is, for some table of the snapshot, the
    count query of that table, the select of its declared columns, or a
    bulk load into that table under its declared column names: the data
    phase runs no statement, reads only from the source and writes only
    by bulk load into snapshot tables. *)
Theorem data_phase_calls (env : Env) (tables : list Table) :
  Forall (fun ev => exists t, In t tables /\ copyCallOf t ev)
         (fst (copyData env Source Dest tables))
  /\ forallb (fun ev => negb (isExec ev) && respectsRoles ev)
       (fst (copyData env Source Dest tables)) = true.
Proof. exact (copyData_calls env tables). Qed.

(** The bar of the wrapped cursor during a bulk load that succeeds. *)
Lemma copyLoop_bar (env : Env) (conn : Conn) (tn cn : list string)
    (rows : list Row) (fuel : nat) (cur : Row) (fl rep : option error)
    (bar : ProgressBar) (pushed : list Row) :
  List.length rows <= fuel ->
  snd (copyLoop env fuel conn tn cn
         (ProgressBarRows.mk (mkBaseRows rows cur fl rep) bar) pushed) = None ->
  barAdded (ProgressBarRows.Bar
              (fst (fst (copyLoop env fuel conn tn cn
                           (ProgressBarRows.mk (mkBaseRows rows cur fl rep) bar)
                           pushed)))) =
    (barAdded bar + Z.of_nat (List.length rows))%Z
  /\ pending (ProgressBarRows.Rows
                (fst (fst (copyLoop env fuel conn tn cn
                             (ProgressBarRows.mk (mkBaseRows rows cur fl rep) bar)
                             pushed)))) = [].
Proof.
  revert fuel cur rep bar pushed; induction rows as [|row rows IH];
    intros fuel cur rep bar pushed Hfuel.
  - destruct fuel; cbn; destruct fl; cbn; intros _; split; try reflexivity; lia.
  - destruct fuel as [|fuel]; [cbn in Hfuel; lia|].
    cbn [copyLoop]. cbn [Next ProgressBarRows_pgxRows].
    unfold ProgressBarRows.Next. cbv zeta.
    cbn [ProgressBarRows.Rows Next baseRows_pgxRows baseRows_Next pending
         failure reported Values current ProgressBarRows.Bar ProgressBarRows_pgxRows].
    destruct (envCopyRow env conn tn cn pushed row); [cbn; intros H; discriminate H|].
    intros H. destruct (IH fuel row rep (Bar_Add 1 bar) (pushed ++ [row])
                          ltac:(cbn in Hfuel; lia) H) as [H1 H2].
    split; [|exact H2]. rewrite H1. cbn [Bar_Add barAdded List.length]. lia.
Qed.

(** X16: during a bulk load that succeeds, the wrapped cursor notifies
    the bar once for every row of the stream: the units notified grow by
    the number of rows loaded, whatever the count announced, and the
    cursor is left empty. *)
Theorem bulk_load_notifies_every_row (env : Env) (conn : Conn) (tn cn : list string)
    (rows : list Row) (fl : option error) (bar : ProgressBar) :
  snd (copyLoop env (List.length rows) conn tn cn
         (ProgressBarRows.mk (mkBaseRows rows [] fl None) bar) []) = None ->
  barAdded (ProgressBarRows.Bar
              (fst (fst (copyLoop env (List.length rows) conn tn cn
                           (ProgressBarRows.mk (mkBaseRows rows [] fl None) bar) [])))) =
    (barAdded bar + Z.of_nat (List.length rows))%Z
  /\ snd (fst (copyLoop env (List.length rows) conn tn cn
                 (ProgressBarRows.mk (mkBaseRows rows [] fl None) bar) [])) = rows
  /\ pending (ProgressBarRows.Rows
                (fst (fst (copyLoop env (List.length rows) conn tn cn
                             (ProgressBarRows.mk (mkBaseRows rows [] fl None) bar) []))))
     = [].
Proof.
  intros H.
  destruct (copyLoop_bar env conn tn cn rows (List.length rows) [] fl None bar []
              (le_n _) H) as [H1 H2].
  destruct (copyLoop_pushAll env conn tn cn rows (List.length rows) [] fl None bar []
              (le_n _)) as [H3 H4].
  split; [exact H1|]. split; [|exact H2].
  rewrite H3. rewrite H4 in H.
  destruct (snd (pushAll env conn tn cn rows [])) eqn:E; [discriminate H|].
  rewrite (pushAll_accepted env conn tn cn rows [] E). reflexivity.
Qed.

(** Three rows under a bar that was told to expect five. *)
Lemma bulk_load_notifies_every_row_witness :
  barAdded (ProgressBarRows.Bar
              (fst (fst (copyLoop sampleEnv (List.length sampleUsersRows) Dest
                           ["users"%string] ["id"%string]
                           (ProgressBarRows.mk (mkBaseRows sampleUsersRows [] None None)
                              (progressbar_Default 5 "  Copying")) [])))) = 3%Z.
Proof.
  apply (bulk_load_notifies_every_row sampleEnv Dest ["users"%string] ["id"%string]
           sampleUsersRows None (progressbar_Default 5 "  Copying")).
  reflexivity.
Defined.

(** ** The phases of a run *)

Lemma introspectSchema_source_reads (env : Env) :
  forallb (fun ev => isRead ev && respectsRoles ev)
    (fst (introspectSchema env Source)) = true.
Proof.
  assert (Ht : forall t,
    forallb (fun ev => isRead ev && respectsRoles ev)
      (fst (introspectTable env Source t)) = true).
  { intros t. unfold introspectTable.
    repeat (apply bind_events_forallb;
            [try (rewrite wrapErr_fst); reflexivity | intros ?]).
    reflexivity. }
  unfold introspectSchema.
  repeat (apply bind_events_forallb; [try (rewrite wrapErr_fst); reflexivity | intros ?]).
  match goal with |- context [introspectTables _ _ ?l] => induction l as [|t ts IH] end.
  - reflexivity.
  - cbn [introspectTables].
    apply bind_events_forallb; [apply Ht | intros ?].
    apply bind_events_forallb; [exact IH | intros ?]. reflexivity.
Qed.

Lemma createSchema_dest_execs (env : Env) (tables : list Table) :
  forallb (fun ev => isExec ev && respectsRoles ev)
    (fst (createSchema env Dest tables)) = true.
Proof.
  induction tables as [|t rest IH]; [reflexivity|].
  cbn [createSchema]. apply bind_events_forallb; [|intros _; exact IH].
  rewrite createTable_run.
  destruct (envExec env Dest (dropTableSQL (Table.Name t))); reflexivity.
Qed.

Lemma forallb_weaken {A} (P Q : A -> bool) (l : list A) :
  (forall x, P x = true -> Q x = true) ->
  forallb P l = true -> forallb Q l = true.
Proof.
  intros HPQ H. apply forallb_forall. intros x Hin.
  apply HPQ. rewrite forallb_forall in H. exact (H x Hin).
Qed.

(** X17: in every run, however it ends, the log of [migrate] is made of
    three stretches in this order: catalog reads, then statements, then
    the calls of the data phase, which run no statement; the data phase
    starts only after every table of the snapshot has been dropped and
    created.  All reads go to the source and all writes to the
    destination: the source is never written to. *)
Theorem migrate_phases (env : Env) :
  exists e1 e2 e3,
    fst (migrate env Source Dest) = e1 ++ e2 ++ e3
    /\ forallb isRead e1 = true
    /\ forallb isExec e2 = true
    /\ forallb (fun ev => negb (isExec ev)) e3 = true
    /\ forallb respectsRoles (fst (migrate env Source Dest)) = true
    /\ (e3 <> [] ->
        exists tables,
          snd (introspectSchema env Source) = Ok tables /\
          e2 = schemaEvents Dest tables).
Proof.
  pose proof (introspectSchema_source_reads env) as HI.
  destruct (introspectSchema env Source) as [evsI [tables|e]] eqn:EI; cbn [fst] in HI.
  - pose proof (createSchema_dest_execs env tables) as HS.
    pose proof (proj2 (copyData_calls env tables)) as HC.
    rewrite (migrate_run env tables evsI EI).
    destruct (createSchema env Dest tables) as [evsS [[]|e]] eqn:ES; cbn [fst] in HS.
    + exists evsI, evsS, (fst (copyData env Source Dest tables)).
      split; [destruct (copyData env Source Dest tables) as [evsC [[]|e]]; reflexivity|].
      split; [eapply forallb_weaken; [|exact HI]; intros x Hx;
              apply andb_true_iff in Hx; tauto|].
      split; [eapply forallb_weaken; [|exact HS]; intros x Hx;
              apply andb_true_iff in Hx; tauto|].
      split; [eapply forallb_weaken; [|exact HC]; intros x Hx;
              apply andb_true_iff in Hx; tauto|].
      split.
      * assert (Hall : forallb respectsRoles
                         (evsI ++ evsS ++ fst (copyData env Source Dest tables)) = true).
        { rewrite !forallb_app.
          rewrite (forallb_weaken _ respectsRoles _
                     (fun x Hx => proj2 (proj1 (andb_true_iff _ _) Hx)) HI).
          rewrite (forallb_weaken _ respectsRoles _
                     (fun x Hx => proj2 (proj1 (andb_true_iff _ _) Hx)) HS).
          rewrite (forallb_weaken _ respectsRoles _
                     (fun x Hx => proj2 (proj1 (andb_true_iff _ _) Hx)) HC).
          reflexivity. }
        destruct (copyData env Source Dest tables) as [evsC [[]|e]]; exact Hall.
      * intros _. exists tables. split; [reflexivity|].
        exact (createSchema_ok env Dest tables evsS ES).
    + exists evsI, evsS, []. cbn [fst]. rewrite app_nil_r.
      split; [reflexivity|].
      split; [eapply forallb_weaken; [|exact HI]; intros x Hx;
              apply andb_true_iff in Hx; tauto|].
      split; [eapply forallb_weaken; [|exact HS]; intros x Hx;
              apply andb_true_iff in Hx; tauto|].
      split; [reflexivity|].
      split; [|intros H; contradiction].
      rewrite forallb_app.
      rewrite (forallb_weaken _ respectsRoles _
                 (fun x Hx => proj2 (proj1 (andb_true_iff _ _) Hx)) HI).
      rewrite (forallb_weaken _ respectsRoles _
                 (fun x Hx => proj2 (proj1 (andb_true_iff _ _) Hx)) HS).
      reflexivity.
  - exists evsI, [], []. unfold migrate. rewrite EI. cbn [wrapErr bind fst app].
    rewrite app_nil_r.
    split; [reflexivity|].
    split; [eapply forallb_weaken; [|exact HI]; intros x Hx;
            apply andb_true_iff in Hx; tauto|].
    split; [reflexivity|]. split; [reflexivity|].
    split; [|intros H; contradiction].
    eapply forallb_weaken; [|exact HI]. intros x Hx. apply andb_true_iff in Hx. tauto.
Qed.

(** ** The entry point *)

Local Open Scope string_scope.

Lemma migrate_fail_inv (env : Env) (msg : error) :
  snd (migrate env Source Dest) = Fail msg ->
  exists e,
    msg = "failed to introspect schema: " ++ e
    \/ msg = "failed to create schema: " ++ e
    \/ msg = "failed to copy data: " ++ e.
Proof.
  destruct (introspectSchema env Source) as [evsI [tables|e]] eqn:EI.
  - rewrite (migrate_run env tables evsI EI).
    destruct (createSchema env Dest tables) as [evsS [[]|e]].
    + destruct (copyData env Source Dest tables) as [evsC [[]|e]]; cbn [snd];
        intros H; [discriminate H|].
      injection H as <-. exists e. right; right. reflexivity.
    + cbn [snd]. intros H. injection H as <-. exists e. right; left. reflexivity.
  - unfold migrate. rewrite EI. cbn. intros H. injection H as <-.
    exists e. left. reflexivity.
Qed.

(** X18: the process ends with success exactly when both variables are
    set, both connections open and [migrate] returns no error; it has
    then opened the source before the destination, run [migrate] in
    between, and closed the destination before the source. *)
Theorem main_succeeds_iff (p : Process) (env : Env) :
  (snd (main p env) = ExitSuccess <->
   procGetenv p "XATA_DATABASE_URL" <> EmptyString
   /\ procGetenv p "DATABASE_URL" <> EmptyString
   /\ procConnect p Source (procGetenv p "XATA_DATABASE_URL") = None
   /\ procConnect p Dest (procGetenv p "DATABASE_URL") = None
   /\ snd (migrate env Source Dest) = Ok tt)
  /\ (snd (main p env) = ExitSuccess ->
      fst (main p env) =
        ([MConnect Source (procGetenv p "XATA_DATABASE_URL");
          MConnect Dest (procGetenv p "DATABASE_URL")]
         ++ map MCall (fst (migrate env Source Dest))
         ++ [MClose Dest; MClose Source])%list).
Proof.
  unfold main. cbv zeta.
  destruct (String.eqb_spec (procGetenv p "XATA_DATABASE_URL") EmptyString) as [Hs|Hs].
  { split; [split|]; cbn; try (intros H; discriminate H). intros (H & _). contradiction. }
  destruct (String.eqb_spec (procGetenv p "DATABASE_URL") EmptyString) as [Hd|Hd].
  { split; [split|]; cbn; try (intros H; discriminate H). intros (_ & H & _). contradiction. }
  destruct (procConnect p Source (procGetenv p "XATA_DATABASE_URL")) as [e|].
  { split; [split|]; cbn; try (intros H; discriminate H).
    intros (_ & _ & H & _). discriminate H. }
  destruct (procConnect p Dest (procGetenv p "DATABASE_URL")) as [e|].
  { split; [split|]; cbn; try (intros H; discriminate H).
    intros (_ & _ & _ & H & _). discriminate H. }
  destruct (migrate env Source Dest) as [evs [[]|e]]; cbn [fst snd].
  - split; [split|]; auto.
  - split; [split|]; try (intros H; discriminate H).
    intros (_ & _ & _ & _ & H). discriminate H.
Qed.

(** The sample run ends with success. *)
Lemma main_succeeds_iff_witness :
  main sampleProcess sampleEnv =
    (([MConnect Source "postgres://xata/db"; MConnect Dest "postgres://local/db"]
      ++ map MCall (fst (migrate sampleEnv Source Dest))
      ++ [MClose Dest; MClose Source])%list,
     ExitSuccess).
Proof.
  assert (H : snd (main sampleProcess sampleEnv) = ExitSuccess)
    by (vm_compute; reflexivity).
  pose proof (proj2 (main_succeeds_iff sampleProcess sampleEnv) H) as Hlog.
  destruct (main sampleProcess sampleEnv) as [evs r]. cbn [fst snd] in *.
  subst evs r. reflexivity.
Defined.

(** X19: the order of the steps of [main].  With either variable
    missing nothing is attempted, not even the connection whose variable
    is set; the destination is dialled only once the source is
    connected; [migrate] makes its calls only once both are connected;
    and a run that ends in a fatal error closes no connection. *)
Theorem main_step_order (p : Process) (env : Env) :
  (procGetenv p "XATA_DATABASE_URL" = EmptyString \/
   procGetenv p "DATABASE_URL" = EmptyString ->
   fst (main p env) = [])
  /\ (forall url,
        In (MConnect Dest url) (fst (main p env)) ->
        url = procGetenv p "DATABASE_URL" /\
        procConnect p Source (procGetenv p "XATA_DATABASE_URL") = None)
  /\ (forall ev,
        In (MCall ev) (fst (main p env)) ->
        procConnect p Source (procGetenv p "XATA_DATABASE_URL") = None /\
        procConnect p Dest (procGetenv p "DATABASE_URL") = None /\
        In ev (fst (migrate env Source Dest)))
  /\ (forall msg,
        snd (main p env) = ExitFatal msg ->
        forallb (fun ev => negb (isClose ev)) (fst (main p env)) = true).
Proof.
  assert (Hcall : forall ev evs pre post,
            (forall x, In x pre -> forall e, x <> MCall e) ->
            (forall x, In x post -> forall e, x <> MCall e) ->
            In (MCall ev) (pre ++ map MCall evs ++ post)%list -> In ev evs).
  { intros ev evs pre post Hpre Hpost H.
    apply in_app_or in H. destruct H as [H|H]; [exfalso; exact (Hpre _ H ev eq_refl)|].
    apply in_app_or in H. destruct H as [H|H]; [|exfalso; exact (Hpost _ H ev eq_refl)].
    apply in_map_iff in H. destruct H as (x & Hx & Hin). injection Hx as ->. exact Hin. }
  assert (Hnoclose : forall evs : list Event,
            forallb (fun ev => negb (isClose ev)) (map MCall evs) = true).
  { induction evs as [|x evs IH]; [reflexivity | exact IH]. }
  unfold main. cbv zeta.
  destruct (String.eqb_spec (procGetenv p "XATA_DATABASE_URL") EmptyString) as [Hs|Hs].
  { cbn. repeat split; try reflexivity; contradiction. }
  destruct (String.eqb_spec (procGetenv p "DATABASE_URL") EmptyString) as [Hd|Hd].
  { cbn. repeat split; try reflexivity; contradiction. }
  split; [intros [H|H]; contradiction|].
  destruct (procConnect p Source (procGetenv p "XATA_DATABASE_URL")) as [e|].
  { cbn. repeat split; try reflexivity;
      repeat match goal with H : _ \/ _ |- _ => destruct H end;
      try discriminate; contradiction. }
  destruct (procConnect p Dest (procGetenv p "DATABASE_URL")) as [e|].
  { cbn. split; [|split].
    - intros url [H|[H|[]]]; [discriminate H|]. injection H as <-. auto.
    - intros ev [H|[H|[]]]; discriminate H.
    - reflexivity. }
  destruct (migrate env Source Dest) as [evs [[]|e]]; cbn [fst snd].
  - split; [|split].
    + intros url H. cbn in H. destruct H as [H|[H|H]]; [discriminate H| |].
      * injection H as <-. auto.
      * exfalso. apply in_app_or in H. destruct H as [H|H].
        -- apply in_map_iff in H. destruct H as (x & Hx & _). discriminate Hx.
        -- cbn in H. intuition discriminate.
    + intros ev H. split; [reflexivity|]. split; [reflexivity|].
      apply (Hcall ev evs
               [MConnect Source (procGetenv p "XATA_DATABASE_URL");
                MConnect Dest (procGetenv p "DATABASE_URL")]%list
               [MClose Dest; MClose Source]%list); [| |exact H].
      * intros x Hx e' E. subst x. cbn in Hx. intuition discriminate.
      * intros x Hx e' E. subst x. cbn in Hx. intuition discriminate.
    + intros msg H. discriminate H.
  - split; [|split].
    + intros url H. cbn in H. destruct H as [H|[H|H]]; [discriminate H| |].
      * injection H as <-. auto.
      * exfalso. apply in_map_iff in H. destruct H as (x & Hx & _). discriminate Hx.
    + intros ev H. split; [reflexivity|]. split; [reflexivity|].
      apply (Hcall ev evs
               [MConnect Source (procGetenv p "XATA_DATABASE_URL");
                MConnect Dest (procGetenv p "DATABASE_URL")]%list nil);
        [| |rewrite app_nil_r; exact H].
      * intros x Hx e' E. subst x. cbn in Hx. intuition discriminate.
      * intros x Hx. contradiction.
    + intros msg _. cbn [app forallb isClose negb andb]. apply Hnoclose.
Qed.

(** Without [DATABASE_URL] the source is not dialled either. *)
Lemma main_step_order_witness :
  fst (main unconfiguredProcess sampleEnv) = [].
Proof.
  apply (proj1 (main_step_order unconfiguredProcess sampleEnv)).
  right. reflexivity.
Defined.

(** X20: what a failed run prints before it exits: the missing
    variable, the connection that could not be opened with the error of
    the driver, or ["Migration failed: "], the name of the failed phase
    and the error of that phase. *)
Theorem main_fatal_message (p : Process) (env : Env) (msg : string) :
  snd (main p env) = ExitFatal msg ->
  msg = "XATA_DATABASE_URL is not set"
  \/ msg = "DATABASE_URL is not set"
  \/ (exists e, msg = "Unable to connect to source database: " ++ e)
  \/ (exists e, msg = "Unable to connect to destination database: " ++ e)
  \/ (exists e, msg = "Migration failed: failed to introspect schema: " ++ e)
  \/ (exists e, msg = "Migration failed: failed to create schema: " ++ e)
  \/ (exists e, msg = "Migration failed: failed to copy data: " ++ e).
Proof.
  unfold main. cbv zeta.
  destruct (procGetenv p "XATA_DATABASE_URL" =? EmptyString).
  { cbn. intros H. injection H as <-. auto. }
  destruct (procGetenv p "DATABASE_URL" =? EmptyString).
  { cbn. intros H. injection H as <-. auto. }
  destruct (procConnect p Source (procGetenv p "XATA_DATABASE_URL")) as [e|].
  { cbn [snd]. intros H. injection H as <-. right; right; left. exists e. reflexivity. }
  destruct (procConnect p Dest (procGetenv p "DATABASE_URL")) as [e|].
  { cbn [snd]. intros H. injection H as <-. right; right; right; left.
    exists e. reflexivity. }
  pose proof (migrate_fail_inv env) as Hm.
  destruct (migrate env Source Dest) as [evs [[]|e]]; cbn [snd] in *;
    intros H; [discriminate H|].
  injection H as <-. destruct (Hm e eq_refl) as [e' [-> | [-> | ->]]].
  - right; right; right; right; left. exists e'. reflexivity.
  - right; right; right; right; right; left. exists e'. reflexivity.
  - right; right; right; right; right; right. exists e'. reflexivity.
Qed.

(** The rejected row of the sample, as the user sees it. *)
Lemma main_fatal_message_witness :
  snd (main sampleProcess rejectingEnv) =
    ExitFatal ("Migration failed: failed to copy data: "
               ++ "failed to copy data for table users: "
               ++ "duplicate key value violates unique constraint")
  /\ exists e, ("Migration failed: failed to copy data: "
                ++ "failed to copy data for table users: "
                ++ "duplicate key value violates unique constraint")
               = "Migration failed: failed to copy data: " ++ e.
Proof.
  assert (H : snd (main sampleProcess rejectingEnv) =
              ExitFatal ("Migration failed: failed to copy data: "
                         ++ "failed to copy data for table users: "
                         ++ "duplicate key value violates unique constraint"))
    by (vm_compute; reflexivity).
  split; [exact H|].
  destruct (main_fatal_message sampleProcess rejectingEnv _ H)
    as [E | [E | [[e E] | [[e E] | [[e E] | [[e E] | [e E]]]]]]];
    try (exfalso; vm_compute in E; discriminate E).
  exists e. exact E.
Defined.
